(** * Storefront loaders: filter/sort translation, review summary, recommendations

    A shallow embedding of the data-shaping code of two route modules:

    - [app/routes/($lang).collections.$collectionHandle.tsx]: the part of
      [loader] that turns the URL search parameters into catalog filters,
      applied-filter descriptors and a sort specification, and
      [getSortValuesFromParam];
    - [app/routes/($lang).products.$productHandle.tsx]: [getReviewsWithID],
      [getAverageRating], [getProductReviews] and [getRecommendedProducts].

    The code is JavaScript, so the embedding starts with the fragment of the
    language's runtime that these functions lean on: IEEE-754 binary64 numbers
    (Stdlib's [SpecFloat] at precision 53), primitive values with their
    conversions ([ToBoolean], [ToNumber], [ToString]), the operators [+], [>],
    [/], [*] and [===], [Number.prototype.toFixed], [String.prototype.split]
    and [String.prototype.includes].  Strings are sequences of code units
    below 256. *)

From Stdlib Require Import ZArith List Bool Lia Permutation.
From Stdlib Require Import Strings.String Strings.Ascii.
From Stdlib Require Import Floats.SpecFloat Numbers.DecimalString.
Import ListNotations.

Local Open Scope string_scope.
Local Open Scope Z_scope.

(** ** The JavaScript runtime fragment *)

Module Js.

(** *** Numbers: binary64 *)

Definition number : Type := spec_float.

Definition prec : Z := 53.
Definition emax : Z := 1024.

Definition nan : number := S754_nan.
Definition zero : number := S754_zero false.

Definition add : number -> number -> number := SFadd prec emax.
Definition mul : number -> number -> number := SFmul prec emax.
Definition div : number -> number -> number := SFdiv prec emax.
Definition ltb : number -> number -> bool := SFltb.

(** The Number value of a mathematical integer (round to nearest, ties to
    even). *)
Definition of_Z (z : Z) : number := binary_normalize prec emax z 0 false.

Definition is_nan (x : number) : bool :=
  match x with S754_nan => true | _ => false end.

Definition is_zero (x : number) : bool :=
  match x with S754_zero _ => true | _ => false end.

Definition is_infinite (x : number) : bool :=
  match x with S754_infinity _ => true | _ => false end.

(** Not NaN and the sign bit clear: +0, a positive number or +Infinity. *)
Definition sign_clear (x : number) : bool :=
  match x with
  | S754_zero s | S754_infinity s | S754_finite s _ _ => negb s
  | S754_nan => false
  end.

Definition number_eqb (x y : number) : bool :=
  match x, y with
  | S754_zero a, S754_zero b => Bool.eqb a b
  | S754_infinity a, S754_infinity b => Bool.eqb a b
  | S754_nan, S754_nan => true
  | S754_finite a m e, S754_finite b n f =>
      Bool.eqb a b && Pos.eqb m n && Z.eqb e f
  | _, _ => false
  end.

(** A bound on the exponent after a rounding, from a bound [E] on the
    exponent before it and a bound [D] on the number of binary digits. *)
Definition next_exponent (D E : Z) : Z := Z.max E (Z.max (D + E - 53) (-1074)).

(** The Number value of the decimal [m * 10 ^ e10] ([m >= 0]) with sign
    [neg]: one correct rounding of the exact value. *)
Definition of_decimal (neg : bool) (m e10 : Z) : number :=
  match m with
  | Z0 => S754_zero neg
  | Zpos _ =>
      if 0 <=? e10 then
        binary_normalize prec emax (if neg then - (m * 10 ^ e10) else m * 10 ^ e10) 0 neg
      else
        let '(q, e, l) := SFdiv_core_binary prec emax m 0 (10 ^ (- e10)) 0 in
        binary_round_aux prec emax neg q e l
  | Zneg _ => nan
  end.

(** *** Strings *)

Definition chars (s : string) : list ascii := list_ascii_of_string s.

Definition dec (z : Z) : string := NilZero.string_of_uint (N.to_uint (Z.to_N z)).

Fixpoint repeat0 (n : nat) : string :=
  match n with
  | O => EmptyString
  | S k => String "0"%char (repeat0 k)
  end.

(** [s.includes(sub)] *)
Fixpoint includes (s sub : string) : bool :=
  String.prefix sub s ||
  match s with
  | EmptyString => false
  | String _ s' => includes s' sub
  end.

(** [s.split(sep)] for a separator of one code unit: the pieces between the
    occurrences of [sep], all of them, in order; never the empty array. *)
Fixpoint split (sep : ascii) (s : string) : list string :=
  match s with
  | EmptyString => [EmptyString]
  | String c s' =>
      if Ascii.eqb c sep then EmptyString :: split sep s'
      else match split sep s' with
           | [] => [String c EmptyString]
           | piece :: pieces => String c piece :: pieces
           end
  end.

(** *** StringToNumber: the [Number(string)] conversion *)

Definition is_StrWhiteSpaceChar (c : ascii) : bool :=
  let n := N_of_ascii c in
  (n =? 9)%N || (n =? 10)%N || (n =? 11)%N || (n =? 12)%N || (n =? 13)%N
  || (n =? 32)%N || (n =? 160)%N.

Fixpoint trim_start (l : list ascii) : list ascii :=
  match l with
  | c :: l' => if is_StrWhiteSpaceChar c then trim_start l' else l
  | [] => []
  end.

Definition trim (l : list ascii) : list ascii :=
  rev (trim_start (rev (trim_start l))).

Definition digit_value (base : Z) (c : ascii) : option Z :=
  let n := Z.of_N (N_of_ascii c) in
  let v :=
    if (48 <=? n) && (n <=? 57) then n - 48
    else if (97 <=? n) && (n <=? 102) then n - 87
    else if (65 <=? n) && (n <=? 70) then n - 55
    else 16 in
  if v <? base then Some v else None.

(** Reads the longest prefix of digits in [base]: the value read on top of
    [acc], the number of digits read, and the rest. *)
Fixpoint read_digits (base : Z) (l : list ascii) (acc cnt : Z) : Z * Z * list ascii :=
  match l with
  | c :: l' =>
      match digit_value base c with
      | Some v => read_digits base l' (acc * base + v) (cnt + 1)
      | None => (acc, cnt, l)
      end
  | [] => (acc, cnt, [])
  end.

Definition is_e (c : ascii) : bool := Ascii.eqb c "e" || Ascii.eqb c "E".

(** ExponentPart_opt, at the end of the literal. *)
Definition parse_exponent (l : list ascii) : option Z :=
  match l with
  | [] => Some 0
  | c :: l1 =>
      if is_e c then
        let '(neg, l2) :=
          match l1 with
          | "-"%char :: r => (true, r)
          | "+"%char :: r => (false, r)
          | _ => (false, l1)
          end in
        match read_digits 10 l2 0 0 with
        | (v, cnt, []) => if 0 <? cnt then Some (if neg then - v else v) else None
        | _ => None
        end
      else None
  end.

(** StrUnsignedDecimalLiteral other than Infinity: mantissa and decimal
    exponent. *)
Definition parse_unsigned_decimal (l : list ascii) : option (Z * Z) :=
  let '(ip, n1, r1) := read_digits 10 l 0 0 in
  match r1 with
  | "."%char :: r2 =>
      let '(m, n2, r3) := read_digits 10 r2 ip 0 in
      if (n1 =? 0) && (n2 =? 0) then None
      else option_map (fun e => (m, e - n2)) (parse_exponent r3)
  | _ =>
      if n1 =? 0 then None
      else option_map (fun e => (ip, e)) (parse_exponent r1)
  end.

Definition parse_non_decimal (base : Z) (l : list ascii) : number :=
  match read_digits base l 0 0 with
  | (v, cnt, []) => if 0 <? cnt then of_Z v else nan
  | _ => nan
  end.

Definition parse_signed_decimal (neg : bool) (l : list ascii) : number :=
  if list_eq_dec ascii_dec l (chars "Infinity") then S754_infinity neg
  else match parse_unsigned_decimal l with
       | Some (m, e) => of_decimal neg m e
       | None => nan
       end.

Definition StringToNumber (s : string) : number :=
  match trim (chars s) with
  | [] => zero
  | "0"%char :: "x"%char :: l | "0"%char :: "X"%char :: l => parse_non_decimal 16 l
  | "0"%char :: "o"%char :: l | "0"%char :: "O"%char :: l => parse_non_decimal 8 l
  | "0"%char :: "b"%char :: l | "0"%char :: "B"%char :: l => parse_non_decimal 2 l
  | "-"%char :: l => parse_signed_decimal true l
  | "+"%char :: l => parse_signed_decimal false l
  | l => parse_signed_decimal false l
  end.

(** *** Number::toString in radix 10 *)

(** The exact value of a positive finite number as a fraction. *)
Definition fraction (m : positive) (e : Z) : Z * Z :=
  if 0 <=? e then (Zpos m * 2 ^ e, 1) else (Zpos m, 2 ^ (- e)).

Fixpoint ndigits_fuel (fuel : nat) (z : Z) : Z :=
  match fuel with
  | O => 1
  | S f => if z <? 10 then 1 else 1 + ndigits_fuel f (z / 10)
  end.

(** The number of decimal digits of [z >= 1]. *)
Definition ndigits (z : Z) : Z := ndigits_fuel (Z.to_nat (Z.log2 z)) z.

Fixpoint scale_up_fuel (fuel : nat) (num den j : Z) : Z :=
  match fuel with
  | O => j
  | S f => if den <=? num * 10 ^ j then j else scale_up_fuel f num den (j + 1)
  end.

(** The [n] with [10 ^ (n - 1) <= num / den < 10 ^ n]. *)
Definition decimal_exponent (num den : Z) : Z :=
  if den <=? num then ndigits (num / den)
  else 1 - scale_up_fuel (S (Z.to_nat (Z.log2 den))) num den 1.

(** [num / den * 10 ^ p] as a quotient and the parts of its remainder. *)
Definition scaled (num den p : Z) : Z * Z * Z :=
  let '(a, b) := if 0 <=? p then (num * 10 ^ p, den) else (num, den * 10 ^ (- p)) in
  (a / b, a mod b, b).

(** The digits [s] (an integer of [k] digits) and the exponent [n] of the
    shortest decimal [s * 10 ^ (n - k)] whose Number value is [x]; of two
    with [k] digits the one closer to [x], and the even one on a tie. *)
Fixpoint shortest_fuel (fuel : nat) (x : number) (num den n k : Z) : Z * Z * Z :=
  let '(lo, r, b) := scaled num den (k - n) in
  let hi := lo + 1 in
  let ok_lo := number_eqb (of_decimal false lo (n - k)) x in
  let ok_hi := number_eqb (of_decimal false hi (n - k)) x in
  let lo_closer :=
    match 2 * r ?= b with
    | Lt => true
    | Eq => Z.even lo
    | Gt => false
    end in
  let up := if hi =? 10 ^ k then (10 ^ (k - 1), n + 1, k) else (hi, n, k) in
  match fuel with
  | O => (lo, n, k)
  | S f =>
      if ok_lo && ok_hi then (if lo_closer then (lo, n, k) else up)
      else if ok_lo then (lo, n, k)
      else if ok_hi then up
      else shortest_fuel f x num den n (k + 1)
  end.

Definition shortest (x : number) (m : positive) (e : Z) : Z * Z * Z :=
  let '(num, den) := fraction m e in
  shortest_fuel 17 x num den (decimal_exponent num den) 1.

Definition format_shortest (s n k : Z) : string :=
  let digits := dec s in
  if (k <=? n) && (n <=? 21) then
    digits ++ repeat0 (Z.to_nat (n - k))
  else if (0 <? n) && (n <=? 21) then
    substring 0 (Z.to_nat n) digits ++ "." ++ substring (Z.to_nat n) (Z.to_nat (k - n)) digits
  else if (-6 <? n) && (n <=? 0) then
    "0." ++ repeat0 (Z.to_nat (- n)) ++ digits
  else
    let e := n - 1 in
    let tail := "e" ++ (if e <? 0 then "-" else "+") ++ dec (Z.abs e) in
    if k =? 1 then digits ++ tail
    else substring 0 1 digits ++ "." ++ substring 1 (Z.to_nat (k - 1)) digits ++ tail.

Definition Number_toString (x : number) : string :=
  match x with
  | S754_nan => "NaN"
  | S754_zero _ => "0"
  | S754_infinity neg => if neg then "-Infinity" else "Infinity"
  | S754_finite neg m e =>
      let '(s, n, k) := shortest (S754_finite false m e) m e in
      (if neg then "-" else "") ++ format_shortest s n k
  end.

(** *** Number.prototype.toFixed *)

(** The digits of the integer [n >= 0] with [f] of them after the point. *)
Definition fixed_digits (n f : Z) : string :=
  let m := dec n in
  let k := Z.of_nat (String.length m) in
  let m := if k <=? f then repeat0 (Z.to_nat (f + 1 - k)) ++ m else m in
  let k := Z.of_nat (String.length m) in
  if f =? 0 then m
  else substring 0 (Z.to_nat (k - f)) m ++ "." ++ substring (Z.to_nat (k - f)) (Z.to_nat f) m.

(** [x.toFixed(f)]; [None] is the RangeError for [f] outside 0..100. *)
Definition toFixed (x : number) (f : Z) : option string :=
  if (f <? 0) || (100 <? f) then None
  else
    match x with
    | S754_nan | S754_infinity _ => Some (Number_toString x)
    | S754_zero _ => Some (fixed_digits 0 f)
    | S754_finite neg m e =>
        let sign := if neg then "-" else "" in
        let '(num, den) := fraction m e in
        if 10 ^ 21 * den <=? num then
          Some (sign ++ Number_toString (S754_finite false m e))
        else
          let n := (2 * num * 10 ^ f + den) / (2 * den) in
          Some (sign ++ fixed_digits n f)
    end.

(** *** Primitive values and the operators the routes use *)

Inductive value : Type :=
| Undefined
| Null
| Boolean (b : bool)
| Number (x : number)
| Str (s : string).

Definition ToBoolean (v : value) : bool :=
  match v with
  | Undefined | Null => false
  | Boolean b => b
  | Number x => negb (is_zero x || is_nan x)
  | Str s => negb (String.eqb s "")
  end.

Definition ToNumber (v : value) : number :=
  match v with
  | Undefined => nan
  | Null => zero
  | Boolean b => if b then of_Z 1 else zero
  | Number x => x
  | Str s => StringToNumber s
  end.

Definition ToString (v : value) : string :=
  match v with
  | Undefined => "undefined"
  | Null => "null"
  | Boolean b => if b then "true" else "false"
  | Number x => Number_toString x
  | Str s => s
  end.

(** [a + b]: concatenation as soon as one side is a string. *)
Definition plus (a b : value) : value :=
  match a, b with
  | Str _, _ | _, Str _ => Str (ToString a ++ ToString b)
  | _, _ => Number (add (ToNumber a) (ToNumber b))
  end.

(** [a > b] *)
Definition gt (a b : value) : bool :=
  match a, b with
  | Str s, Str t => String.ltb t s
  | _, _ => ltb (ToNumber b) (ToNumber a)
  end.

(** [a / b] *)
Definition divide (a b : value) : number := div (ToNumber a) (ToNumber b).

(** [a === b] *)
Definition strict_equals (a b : value) : bool :=
  match a, b with
  | Undefined, Undefined | Null, Null => true
  | Boolean x, Boolean y => Bool.eqb x y
  | Number x, Number y => SFeqb x y
  | Str s, Str t => String.eqb s t
  | _, _ => false
  end.

(** A string or [null], as a value. *)
Definition of_nullable (o : option string) : value :=
  match o with
  | Some s => Str s
  | None => Null
  end.

(** *** Arrays *)

(** [arr.push(x)]: the array afterwards. *)
Definition push {A : Type} (arr : list A) (x : A) : list A := arr ++ [x].

(** [arr.findIndex(f)] and [arr.indexOf(x)]: the first index, or -1. *)
Fixpoint findIndex {A : Type} (f : A -> bool) (l : list A) : Z :=
  match l with
  | [] => -1
  | x :: l' =>
      if f x then 0
      else let i := findIndex f l' in if i <? 0 then -1 else i + 1
  end.

(** [arr.filter((value, index) => f value index)], the indices counted
    from [i]. *)
Fixpoint filter_indexed {A : Type} (f : A -> Z -> bool) (i : Z) (l : list A) : list A :=
  match l with
  | [] => []
  | x :: l' =>
      if f x i then x :: filter_indexed f (i + 1) l'
      else filter_indexed f (i + 1) l'
  end.

(** [arr.splice(start, deleteCount)]: the array that is left. *)
Definition splice {A : Type} (l : list A) (start deleteCount : Z) : list A :=
  let len := Z.of_nat (List.length l) in
  let actualStart := if start <? 0 then Z.max (len + start) 0 else Z.min start len in
  let actualDeleteCount := Z.min (Z.max deleteCount 0) (len - actualStart) in
  firstn (Z.to_nat actualStart) l
  ++ skipn (Z.to_nat (actualStart + actualDeleteCount)) l.

(** *** What running a function comes to *)

Inductive outcome (A : Type) : Type :=
| Returned (a : A)
| Threw
| OutOfFuel.

Arguments Returned {A} a.
Arguments Threw {A}.
Arguments OutOfFuel {A}.

End Js.

(** ** [app/routes/($lang).collections.$collectionHandle.tsx] *)

Module CollectionRoute.

(** [URLSearchParams]: the name/value pairs of the query string, in order,
    names repeated as they come. *)
Definition URLSearchParams : Type := list (string * string).

Definition entries (searchParams : URLSearchParams) : list (string * string) :=
  searchParams.

(** [searchParams.get(name)]: the first value under [name], or null. *)
Fixpoint get (name : string) (searchParams : URLSearchParams) : option string :=
  match searchParams with
  | [] => None
  | (k, v) :: rest => if String.eqb k name then Some v else get name rest
  end.

Definition has (name : string) (searchParams : URLSearchParams) : bool :=
  existsb (fun kv => String.eqb (fst kv) name) searchParams.

Inductive SortKey : Type := RELEVANCE | PRICE | BEST_SELLING | CREATED | MANUAL.

Record SortValues : Type := { sortKey : SortKey; reverse : bool }.

Definition getSortValuesFromParam (sortParam : option string) : SortValues :=
  match sortParam with
  | Some token =>
      if String.eqb token "price-high-low" then {| sortKey := PRICE; reverse := true |}
      else if String.eqb token "price-low-high" then {| sortKey := PRICE; reverse := false |}
      else if String.eqb token "best-selling" then {| sortKey := BEST_SELLING; reverse := false |}
      else if String.eqb token "newest" then {| sortKey := CREATED; reverse := true |}
      else if String.eqb token "featured" then {| sortKey := MANUAL; reverse := false |}
      else {| sortKey := RELEVANCE; reverse := false |}
  | None => {| sortKey := RELEVANCE; reverse := false |}
  end.

(** [{min?: number; max?: number}] *)
Record PriceRange : Type := { min : option Js.number; max : option Js.number }.

(** One element of [FiltersQueryParams].  A field that destructuring may
    leave undefined is an [option], [None] for undefined. *)
Inductive FilterParam : Type :=
| Available (available : bool)
| Known (key value : string)
| VariantOption (name value : option string)
| Price (price : PriceRange).

(** [urlParam]; [value] is [None] for null. *)
Record UrlParam : Type := { key : string; value : option string }.

(** [AppliedFilter]; [label] is [None] for undefined. *)
Record AppliedFilter : Type := { label : option string; urlParam : UrlParam }.

Definition knownFilters : list string := ["productVendor"; "productType"].
Definition available : string := "available".
Definition variantOption : string := "variantOption".

Definition Array_includes (l : list string) (s : string) : bool :=
  existsb (String.eqb s) l.

(** The two arrays the loop pushes onto. *)
Definition arrays : Type := (list FilterParam * list AppliedFilter)%type.

(** The body of [for (const [key, value] of searchParams.entries())]. *)
Definition loop_body (acc : arrays) (entry : string * string) : arrays :=
  let '(filters, appliedFilters) := acc in
  let '(k, v) := entry in
  if String.eqb available k then
    (Js.push filters (Available (String.eqb v "true")),
     Js.push appliedFilters
       {| label := Some (if String.eqb v "true" then "In stock" else "Out of stock");
          urlParam := {| key := available; value := Some v |} |})
  else if Array_includes knownFilters k then
    (Js.push filters (Known k v),
     Js.push appliedFilters {| label := Some v; urlParam := {| key := k; value := Some v |} |})
  else if Js.includes k variantOption then
    let pieces := Js.split ":" v in
    let name := nth_error pieces 0 in
    let val := nth_error pieces 1 in
    (Js.push filters (VariantOption name val),
     Js.push appliedFilters {| label := val; urlParam := {| key := k; value := Some v |} |})
  else acc.

(** [Number(searchParams.get(name)) || 0] *)
Definition price_bound (name : string) (searchParams : URLSearchParams) : Js.number :=
  let parsed := Js.ToNumber (Js.of_nullable (get name searchParams)) in
  if Js.ToBoolean (Js.Number parsed) then parsed else Js.zero.

(** The [if (searchParams.has('minPrice') || searchParams.has('maxPrice'))]
    block. *)
Definition price_block (searchParams : URLSearchParams) (acc : arrays) : arrays :=
  let '(filters, appliedFilters) := acc in
  if has "minPrice" searchParams || has "maxPrice" searchParams then
    let '(price_min, appliedFilters) :=
      if has "minPrice" searchParams then
        let m := price_bound "minPrice" searchParams in
        (Some m,
         Js.push appliedFilters
           {| label := Some ("Min: $" ++ Js.Number_toString m);
              urlParam := {| key := "minPrice"; value := get "minPrice" searchParams |} |})
      else (None, appliedFilters) in
    let '(price_max, appliedFilters) :=
      if has "maxPrice" searchParams then
        let m := price_bound "maxPrice" searchParams in
        (Some m,
         Js.push appliedFilters
           {| label := Some ("Max: $" ++ Js.Number_toString m);
              urlParam := {| key := "maxPrice"; value := get "maxPrice" searchParams |} |})
      else (None, appliedFilters) in
    (Js.push filters (Price {| min := price_min; max := price_max |}), appliedFilters)
  else acc.

(** What [loader] has computed from the request when it queries the
    storefront. *)
Record Variables : Type := {
  v_sortKey : SortKey;
  v_reverse : bool;
  cursor : option string;
  filters : list FilterParam;
  appliedFilters : list AppliedFilter
}.

(** [loader], from [new URL(request.url).searchParams] to the storefront
    query. *)
Definition loader (searchParams : URLSearchParams) : Variables :=
  let sort := getSortValuesFromParam (get "sort" searchParams) in
  let '(fs, afs) :=
    price_block searchParams (fold_left loop_body (entries searchParams) ([], [])) in
  {| v_sortKey := sortKey sort;
     v_reverse := reverse sort;
     cursor := get "cursor" searchParams;
     filters := fs;
     appliedFilters := afs |}.

(** *** Reference definitions for the statements below *)

(** The tokens [getSortValuesFromParam] has a case for. *)
Definition sort_tokens : list string :=
  ["price-high-low"; "price-low-high"; "best-selling"; "newest"; "featured"].

(** What one parameter adds to each array. *)
Definition clauses_of (entry : string * string) : list FilterParam :=
  fst (loop_body ([], []) entry).

Definition descriptors_of (entry : string * string) : list AppliedFilter :=
  snd (loop_body ([], []) entry).

(** The text before the first colon (all of it when there is none) and the
    text after the first colon (none when there is no colon). *)
Fixpoint until_colon (s : string) : string :=
  match s with
  | EmptyString => EmptyString
  | String c s' => if Ascii.eqb c ":" then EmptyString else String c (until_colon s')
  end.

Fixpoint after_colon (s : string) : option string :=
  match s with
  | EmptyString => None
  | String c s' => if Ascii.eqb c ":" then Some s' else after_colon s'
  end.

(** A price bound as the loader reads it from the text of the parameter:
    the Number value of the text, and +0 in place of NaN and of a zero. *)
Definition bound_of_text (text : string) : Js.number :=
  let parsed := Js.StringToNumber text in
  if Js.is_zero parsed || Js.is_nan parsed then Js.zero else parsed.

(** The price clause and the price descriptors, from the first value of
    [minPrice] and of [maxPrice]. *)
Definition price_clause (minPrice maxPrice : option string) : list FilterParam :=
  match minPrice, maxPrice with
  | None, None => []
  | _, _ => [Price {| min := option_map bound_of_text minPrice;
                      max := option_map bound_of_text maxPrice |}]
  end.

Definition price_descriptor (name prefix : string) (text : option string)
    : list AppliedFilter :=
  match text with
  | Some t => [{| label := Some (prefix ++ Js.Number_toString (bound_of_text t));
                  urlParam := {| key := name; value := Some t |} |}]
  | None => []
  end.

Definition price_descriptors (minPrice maxPrice : option string) : list AppliedFilter :=
  (price_descriptor "minPrice" "Min: $" minPrice
   ++ price_descriptor "maxPrice" "Max: $" maxPrice)%list.

(** The number is negative (below zero, or the zero with the sign). *)
Definition is_negative (x : Js.number) : bool :=
  match x with
  | S754_zero s | S754_infinity s | S754_finite s _ _ => s
  | S754_nan => false
  end.

End CollectionRoute.

(** ** [app/routes/($lang).products.$productHandle.tsx] *)

Module ProductRoute.

(** A review of the review service: a JSON object, of which the code reads
    two fields.  A field the object does not have reads as [Js.Undefined]. *)
Record Review : Type := {
  product_external_id : Js.value;
  rating : Js.value
}.

(** The review service: what [fetch] and [response.json()] give for a page
    number, [None] when either throws or [data.reviews] is not an array. *)
Definition ReviewSource : Type := Z -> option (list Review).

(** [getReviewsWithID(externalID, page, products)], with the pages it has
    requested, in order.  [fuel] bounds the depth of the recursion. *)
Fixpoint getReviewsWithID (fuel : nat) (source : ReviewSource) (externalID : Js.value)
    (page : Z) (products : list Review) : list Z * Js.outcome (list Review) :=
  match fuel with
  | O => ([], Js.OutOfFuel)
  | S fuel' =>
      match source page with
      | None => ([page], Js.Threw)
      | Some reviews =>
          if (List.length reviews =? 0)%nat then ([page], Js.Returned products)
          else
            let productsWithID :=
              filter (fun product => Js.strict_equals (product_external_id product) externalID)
                     reviews in
            let '(requested, result) :=
              getReviewsWithID fuel' source externalID (page + 1)
                               (products ++ productsWithID)%list in
            (page :: requested, result)
      end
  end.

(** The body of the loop of [getAverageRating], and [sumKey] after the
    loop. *)
Definition loop_step (sumKey : Js.value) (review : Review) : Js.value :=
  if Js.ToBoolean (rating review) then Js.plus sumKey (rating review) else sumKey.

Definition sum_loop (reviews : list Review) : Js.value :=
  fold_left loop_step reviews (Js.Number Js.zero).

(** [(sumKey / (reviews.length * 5)) * 5] *)
Definition scaled_average (sumKey : Js.value) (length : nat) : Js.number :=
  Js.mul
    (Js.divide sumKey (Js.Number (Js.mul (Js.of_Z (Z.of_nat length)) (Js.of_Z 5))))
    (Js.of_Z 5).

(** [(sumKey > 0) ? ((sumKey / (reviews.length * 5)) * 5).toFixed(2) : 0] *)
Definition average_of (sumKey : Js.value) (length : nat) : Js.outcome Js.value :=
  if Js.gt sumKey (Js.Number Js.zero) then
    match Js.toFixed (scaled_average sumKey length) 2 with
    | Some s => Js.Returned (Js.Str s)
    | None => Js.Threw
    end
  else Js.Returned (Js.Number Js.zero).

Definition getAverageRating (reviews : list Review) : Js.outcome Js.value :=
  average_of (sum_loop reviews) (List.length reviews).

Record ProductReviews : Type := {
  reviews : list Review;
  totalReviews : nat;
  averageRating : Js.value
}.

Definition getProductReviews (myData : list Review) : Js.outcome ProductReviews :=
  match getAverageRating myData with
  | Js.Returned average =>
      Js.Returned {| reviews := myData;
                     totalReviews := List.length myData;
                     averageRating := average |}
  | Js.Threw => Js.Threw
  | Js.OutOfFuel => Js.OutOfFuel
  end.

(** A product of the storefront: its [id], and the rest of it. *)
Record Product : Type := {
  id : string;
  title : string
}.

(** The data of [RECOMMENDED_PRODUCTS_QUERY]. *)
Record Recommendations : Type := {
  recommended : list Product;
  additional_nodes : list Product
}.

(** [getRecommendedProducts], from what [storefront.query] resolved to
    ([None] for a falsy result). *)
Definition getRecommendedProducts (products : option Recommendations) (productId : string)
    : Js.outcome (list Product) :=
  match products with
  | None => Js.Threw
  | Some products =>
      let products := {| recommended := []; additional_nodes := additional_nodes products |} in
      let array := (recommended products ++ additional_nodes products)%list in
      let mergedProducts :=
        Js.filter_indexed
          (fun value index =>
             Js.findIndex (fun value2 => String.eqb (id value2) (id value)) array =? index)
          0 array in
      let originalProduct :=
        Js.findIndex (fun x => String.eqb x productId) (map id mergedProducts) in
      Js.Returned (Js.splice mergedProducts originalProduct 1)
  end.

(** *** Reference definitions for the statements below *)

(** The pages [first .. first + count - 1] of a source, one after the
    other. *)
Fixpoint pages (source : ReviewSource) (first : Z) (count : nat) : list Review :=
  match count with
  | O => []
  | S n =>
      (match source first with Some l => l | None => [] end
       ++ pages source (first + 1) n)%list
  end.

(** The page numbers [first .. first + count - 1]. *)
Fixpoint page_numbers (first : Z) (count : nat) : list Z :=
  match count with
  | O => []
  | S n => first :: page_numbers (first + 1) n
  end.

Definition matches (externalID : Js.value) (review : Review) : bool :=
  Js.strict_equals (product_external_id review) externalID.

Definition truthy_rating (review : Review) : bool := Js.ToBoolean (rating review).

(** A rating as the review service sends it: a number that is neither NaN
    nor negative, or no rating at all. *)
Definition rating_in_range (v : Js.value) : bool :=
  match v with
  | Js.Number (S754_zero _) => true
  | Js.Number (S754_finite s _ _) | Js.Number (S754_infinity s) => negb s
  | Js.Undefined | Js.Null => true
  | _ => false
  end.

(** The sum of the rating fields, from +0, in the order of the list. *)
Definition sum_step (sum : Js.number) (review : Review) : Js.number :=
  match rating review with
  | Js.Number x => Js.add sum x
  | _ => sum
  end.

Definition rating_sum (reviews : list Review) : Js.number :=
  fold_left sum_step reviews Js.zero.

(** Products without a repeated id, the first of each id kept; [seen] are
    the ids met before. *)
Fixpoint dedup_by_id (seen : list string) (l : list Product) : list Product :=
  match l with
  | [] => []
  | p :: l' =>
      if existsb (String.eqb (id p)) seen then dedup_by_id seen l'
      else p :: dedup_by_id (id p :: seen) l'
  end.

(** The list without its first product of id [productId]. *)
Fixpoint remove_id (productId : string) (l : list Product) : list Product :=
  match l with
  | [] => []
  | p :: l' => if String.eqb (id p) productId then l' else p :: remove_id productId l'
  end.

(** The test of the [findIndex] in [getRecommendedProducts]. *)
Definition same_id (value value2 : Product) : bool := String.eqb (id value2) (id value).

Definition has_id (productId : string) (l : list Product) : bool :=
  existsb (fun p => String.eqb (id p) productId) l.

(** [2 ^ 32 - 1], the largest length of an array. *)
Definition max_array_length : Z := 4294967295.

End ProductRoute.

(** ** More of the runtime, for the components *)

Module JsMore.

(** [arr.join(sep)] on strings. *)
Definition join (sep : string) (l : list string) : string := String.concat sep l.

(** [s.toLowerCase()] on code units below 256: A-Z, and the capital letters
    of Latin-1 (U+00C0 .. U+00DE without the multiplication sign). *)
Definition lower_char (c : ascii) : ascii :=
  let n := N_of_ascii c in
  if ((65 <=? n) && (n <=? 90))%N
     || ((192 <=? n) && (n <=? 222) && negb (n =? 215))%N
  then ascii_of_N (n + 32)
  else c.

Fixpoint toLowerCase (s : string) : string :=
  match s with
  | EmptyString => EmptyString
  | String c s' => String (lower_char c) (toLowerCase s')
  end.

(** [\d] *)
Definition is_digit (c : ascii) : bool :=
  let n := N_of_ascii c in ((48 <=? n) && (n <=? 57))%N.

(** [[a-zA-Z]] *)
Definition is_letter (c : ascii) : bool :=
  let n := N_of_ascii c in
  (((65 <=? n) && (n <=? 90)) || ((97 <=? n) && (n <=? 122)))%N.

(** What is pushed when a run of digits ends. *)
Definition flush (current : string) : list string :=
  if String.eqb current "" then [] else [current].

(** The matches of [/\d+/g] in [s], from left to right: the maximal runs of
    digits.  [current] is the run that is being read. *)
Fixpoint digit_runs (s : string) (current : string) : list string :=
  match s with
  | EmptyString => flush current
  | String c s' =>
      if is_digit c then digit_runs s' (current ++ String c EmptyString)
      else (flush current ++ digit_runs s' EmptyString)%list
  end.

(** [s.match(/\d+/g)]: the array of the matches, or null. *)
Definition match_digits (s : string) : option (list string) :=
  match digit_runs s EmptyString with
  | [] => None
  | l => Some l
  end.

(** [/\/[a-zA-Z]{2}-[a-zA-Z]{2}\//] at the start of [s]. *)
Definition lang_here (s : string) : bool :=
  match s with
  | String "/" (String a (String b (String "-" (String c (String d (String "/" _)))))) =>
      is_letter a && is_letter b && is_letter c && is_letter d
  | _ => false
  end.

(** [/\/[a-zA-Z]{2}-[a-zA-Z]{2}\//g.test(s)] on a fresh expression: a match
    somewhere in [s]. *)
Fixpoint lang_test (s : string) : bool :=
  lang_here s ||
  match s with
  | EmptyString => false
  | String _ s' => lang_test s'
  end.

(** [searchParams.set(name, value)]: the first pair of this name takes the
    value and the other pairs of this name go; without such a pair the pair
    is appended. *)
Definition without (name : string) (l : list (string * string)) : list (string * string) :=
  filter (fun kv => negb (String.eqb (fst kv) name)) l.

Fixpoint set (name value : string) (l : list (string * string)) : list (string * string) :=
  match l with
  | [] => [(name, value)]
  | (k, v) :: rest =>
      if String.eqb k name then (k, value) :: without name rest
      else (k, v) :: set name value rest
  end.

End JsMore.

(** ** [app/routes/($lang).products.$productHandle.tsx], the rest *)

Module ProductPage.

(** A product of the review service, of which the code reads one field. *)
Record JudgeProduct : Type := { external_id : Js.value }.

Definition ProductSource : Type := Z -> option (list JudgeProduct).

(** [getProductsWithID(externalID, page, products)], with the pages it has
    requested, in order. *)
Fixpoint getProductsWithID (fuel : nat) (source : ProductSource) (externalID : Js.value)
    (page : Z) (products : list JudgeProduct) : list Z * Js.outcome (list JudgeProduct) :=
  match fuel with
  | O => ([], Js.OutOfFuel)
  | S fuel' =>
      match source page with
      | None => ([page], Js.Threw)
      | Some data_products =>
          if (List.length data_products =? 0)%nat then ([page], Js.Returned products)
          else
            let productsWithID :=
              filter (fun product => Js.strict_equals (external_id product) externalID)
                     data_products in
            let '(requested, result) :=
              getProductsWithID fuel' source externalID (page + 1)
                                (products ++ productsWithID)%list in
            (page :: requested, result)
      end
  end.

(** [Product]: [product.id.match(regex)[0]]; reading [0] of null throws, and
    [None] is undefined. *)
Definition specialPID (id : string) : Js.outcome (option string) :=
  match JsMore.match_digits id with
  | None => Js.Threw
  | Some matches => Js.Returned (nth_error matches 0)
  end.

(** [Product]: the shipping message; [None] is undefined. *)
Definition shippingMessage (tags : list string) : option string :=
  let theTag := find (fun tag => Js.includes tag "shippingStatement") tags in
  match theTag with
  | Some tag =>
      if Js.ToBoolean (Js.Str tag) && negb (String.eqb tag "") then
        nth_error (Js.split ":" tag) 1
      else Some "Ships Tomorrow"
  | None => Some "Ships Tomorrow"
  end.

(** What [Product] has computed when it renders. *)
Definition Product_locals (id : string) (tags : list string)
    : Js.outcome (option string * option string) :=
  match specialPID id with
  | Js.Returned pid => Js.Returned (pid, shippingMessage tags)
  | Js.Threw => Js.Threw
  | Js.OutOfFuel => Js.OutOfFuel
  end.

(** [{name, value}] of a variant's [selectedOptions]. *)
Record SelectedOption : Type := { name : string; value : string }.

(** [ProductForm]: [searchParamsWithDefaults]. *)
Definition searchParamsWithDefaults (searchParams : CollectionRoute.URLSearchParams)
    (selectedOptions : list SelectedOption) : CollectionRoute.URLSearchParams :=
  fold_left
    (fun clonedParams option =>
       if negb (CollectionRoute.has (name option) searchParams)
       then JsMore.set (name option) (value option) clonedParams
       else clonedParams)
    selectedOptions searchParams.

(** An option of the product: [option.name], [option.values]. *)
Record ProductOption : Type := { option_name : string; option_values : list string }.

(** What [ProductOptions] renders for an option: a list box showing the
    current value, or plain links; each value with whether it is checked. *)
Inductive OptionControl : Type :=
| Listbox (current : option string) (items : list (string * bool))
| Links (items : list (string * bool)).

Definition checked (searchParamsWithDefaults : CollectionRoute.URLSearchParams)
    (optionName optionValue : string) : bool :=
  match CollectionRoute.get optionName searchParamsWithDefaults with
  | Some current => String.eqb current optionValue
  | None => false
  end.

Definition ProductOptions (options : list ProductOption)
    (searchParamsWithDefaults : CollectionRoute.URLSearchParams)
    : list (string * OptionControl) :=
  map
    (fun option =>
       let items :=
         map (fun v => (v, checked searchParamsWithDefaults (option_name option) v))
             (option_values option) in
       (option_name option,
        if (7 <? List.length (option_values option))%nat
        then Listbox (CollectionRoute.get (option_name option) searchParamsWithDefaults) items
        else Links items))
    (filter (fun option => (1 <? List.length (option_values option))%nat) options).

(** [ProductOptionLink]: [path] and [clonedSearchParams]. *)
Definition link_path (pathname : string) : string :=
  if JsMore.lang_test pathname
  then "/" ++ JsMore.join "/" (skipn 2 (Js.split "/" pathname))
  else pathname.

Definition link_params (optionName optionValue : string)
    (searchParams : CollectionRoute.URLSearchParams) : CollectionRoute.URLSearchParams :=
  JsMore.set optionName optionValue searchParams.

(** *** Reference definitions for the statements below *)

Definition judge_pages (source : ProductSource) : Z -> nat -> list JudgeProduct :=
  fix pages (first : Z) (count : nat) : list JudgeProduct :=
    match count with
    | O => []
    | S n =>
        (match source first with Some l => l | None => [] end
         ++ pages (first + 1) n)%list
    end.

Definition judge_matches (externalID : Js.value) (product : JudgeProduct) : bool :=
  Js.strict_equals (external_id product) externalID.

Definition all_digits (s : string) : bool := forallb JsMore.is_digit (Js.chars s).
Definition no_digit (s : string) : bool :=
  forallb (fun c => negb (JsMore.is_digit c)) (Js.chars s).

(** The string does not go on with a digit. *)
Definition stops (s : string) : bool :=
  match s with
  | EmptyString => true
  | String c _ => negb (JsMore.is_digit c)
  end.

(** The name/value pairs of the options, the last option first. *)
Definition later_first (selectedOptions : list SelectedOption) : list (string * string) :=
  rev (map (fun o => (name o, value o)) selectedOptions).

Definition no_slash (s : string) : bool :=
  forallb (fun c => negb (Ascii.eqb c "/")) (Js.chars s).

Definition items_of (control : OptionControl) : list (string * bool) :=
  match control with
  | Listbox _ items | Links items => items
  end.

Definition is_listbox (control : OptionControl) : bool :=
  match control with
  | Listbox _ _ => true
  | Links _ => false
  end.

(** The pairs of a list of this name. *)
Definition named (n : string) (l : list (string * string)) : list (string * string) :=
  filter (fun kv => String.eqb (fst kv) n) l.

End ProductPage.

(** ** [FeaturedArticles] *)

Module Components.

Record Image : Type := { url : string; altText : option string }.

Record Article : Type := {
  id : string;
  handle : string;
  title : string;
  image : option Image
}.

(** The link of one article: its key, its target, the alternative text of
    its picture, the picture and its heading. *)
Record Card : Type := {
  key : string;
  to : string;
  alt : string;
  data : Image;
  heading : string
}.

(** The section: its heading, the [items] of the grid and the children of
    the grid, [None] for null. *)
Record Section : Type := {
  section_heading : string;
  items : nat;
  children : list (option Card)
}.

(** [FeaturedArticles({articles, title = 'Articles'})]; [None] is null for
    the articles and for what is rendered, and undefined for the title of
    the section. *)
Definition FeaturedArticles (articles : option (list Article))
    (section_title : option string) : option Section :=
  match articles with
  | None => None
  | Some articles =>
      if (0 <? List.length articles)%nat then
        let items :=
          List.length
            (filter (fun item => match image item with Some _ => true | None => false end)
                    articles) in
        Some {| section_heading :=
                  match section_title with Some t => t | None => "Articles" end;
                items := items;
                children :=
                  map (fun article =>
                         match image article with
                         | None => None
                         | Some picture =>
                             Some {| key := id article;
                                     to := "/articles/" ++ handle article;
                                     alt := "Image of " ++ title article;
                                     data := picture;
                                     heading := title article |}
                         end)
                      articles |}
      else None
  end.

(** *** Reference definitions for the statements below *)

Definition has_image (article : Article) : bool :=
  match image article with Some _ => true | None => false end.

(** The child of the grid for one article. *)
Definition child_of (article : Article) : option Card :=
  match image article with
  | None => None
  | Some picture =>
      Some {| key := id article;
              to := "/articles/" ++ handle article;
              alt := "Image of " ++ title article;
              data := picture;
              heading := title article |}
  end.

Definition rendered (children : list (option Card)) : list Card :=
  flat_map (fun child => match child with Some c => [c] | None => [] end) children.

End Components.

(** ** The home route, [loader] *)

Module HomeRoute.

(** The test before [throw new Response(null, {status: 404})]: [lang] is
    [None] when the route has no such parameter. *)
Definition lang_is_invalid (lang : option string) (language country : string) : bool :=
  match lang with
  | None => false
  | Some lang =>
      Js.ToBoolean (Js.Str lang)
      && negb (String.eqb (JsMore.toLowerCase lang)
                          (JsMore.toLowerCase (language ++ "-" ++ country)))
  end.

End HomeRoute.

(** ** Reference definitions for further statements on the collection route *)

Module CollectionMore.

(** The names the loop of [loader] has a branch for. *)
Definition scanned (k : string) : bool :=
  String.eqb CollectionRoute.available k
  || CollectionRoute.Array_includes CollectionRoute.knownFilters k
  || Js.includes k CollectionRoute.variantOption.

Definition price_key (k : string) : bool :=
  String.eqb k "minPrice" || String.eqb k "maxPrice".

(** The descriptor names a pair of the query string. *)
Definition from_request (searchParams : CollectionRoute.URLSearchParams)
    (d : CollectionRoute.AppliedFilter) : Prop :=
  exists v,
    CollectionRoute.value (CollectionRoute.urlParam d) = Some v
    /\ In (CollectionRoute.key (CollectionRoute.urlParam d), v) searchParams.

End CollectionMore.

(** ** Reference definitions for further statements on the product route *)

Module ProductMore.

(** The source has the page, and it has reviews. *)
Definition full_page (source : ProductRoute.ReviewSource) (page : Z) : Prop :=
  exists l, source page = Some l /\ l <> [].

(** The texts of the truthy ratings, one after the other. *)
Fixpoint rating_texts (reviews : list ProductRoute.Review) : string :=
  match reviews with
  | [] => EmptyString
  | r :: rest =>
      if ProductRoute.truthy_rating r
      then Js.ToString (ProductRoute.rating r) ++ rating_texts rest
      else rating_texts rest
  end.

(** The binary64 number of a whole number from 0 to [2 ^ 53 - 1], written
    out: 53 binary digits and the exponent that goes with them. *)
Definition whole (n : Z) : Js.number :=
  match n with
  | Zpos _ =>
      S754_finite false (Z.to_pos (n * 2 ^ (53 - Zdigits2 n))) (Zdigits2 n - 53)
  | _ => Js.zero
  end.

(** The stars of a rating: the whole number from 0 to 5 that the rating
    is, none for a missing rating and for null; [None] for everything else. *)
Definition stars (v : Js.value) : option Z :=
  match v with
  | Js.Number x => find (fun n => Js.number_eqb x (Js.of_Z n)) [0; 1; 2; 3; 4; 5]
  | Js.Undefined | Js.Null => Some 0
  | _ => None
  end.

Definition stars_of (review : ProductRoute.Review) : Z :=
  match stars (ProductRoute.rating review) with
  | Some n => n
  | None => 0
  end.

Definition total_stars (reviews : list ProductRoute.Review) : Z :=
  fold_right (fun review total => stars_of review + total) 0 reviews.

End ProductMore.

(** * Properties *)

Local Open Scope list_scope.

(** ** The runtime fragment on known values *)

Section RuntimeExamples.

Example number_of_text :
  map Js.StringToNumber ["abc"; ""; "-5"; " 12.5e1 "; "0x1F"; "1e"; "-0"]
  = [Js.nan; Js.zero; Js.of_Z (-5); Js.of_Z 125; Js.of_Z 31; Js.nan; S754_zero true].
Proof. vm_compute. reflexivity. Qed.

Example text_of_number :
  map (fun text => Js.Number_toString (Js.StringToNumber text))
      ["0"; "-5"; "10.50"; "0.1"; "1e21"; "123456789012345678901"; "0.0000001";
       "0.000001"; "9007199254740993"; "1e999"; "abc"]
  = ["0"; "-5"; "10.5"; "0.1"; "1e+21"; "123456789012345680000"; "1e-7";
     "0.000001"; "9007199254740992"; "Infinity"; "NaN"]%string.
Proof. vm_compute. reflexivity. Qed.

Example fixed_notation :
  map (fun text => Js.toFixed (Js.StringToNumber text) 2)
      ["4"; "0.8"; "1.005"; "0.125"; "-0.001"; "1e21"; "1e999"]
  = [Some "4.00"; Some "0.80"; Some "1.00"; Some "0.13"; Some "-0.00";
     Some "1e+21"; Some "Infinity"]%string
  /\ Js.toFixed (Js.of_Z 1) 101 = None.
Proof. vm_compute. split; reflexivity. Qed.

Example split_at_colons :
  Js.split ":" "Size:A:B" = ["Size"; "A"; "B"]%string
  /\ Js.split ":" "Large" = ["Large"]%string
  /\ Js.split ":" "" = [""]%string.
Proof. repeat split. Qed.

Example splice_one :
  Js.splice [1; 2; 3] 1 1 = [1; 3]
  /\ Js.splice [1; 2; 3] (-1) 1 = [1; 2]
  /\ Js.splice (@nil Z) (-1) 1 = [].
Proof. repeat split. Qed.

Example price_range_10_25 :
  let v := CollectionRoute.loader [("minPrice", "10"); ("maxPrice", "25")]%string in
  CollectionRoute.filters v
  = [CollectionRoute.Price {| CollectionRoute.min := Some (Js.of_Z 10);
                              CollectionRoute.max := Some (Js.of_Z 25) |}]
  /\ map CollectionRoute.label (CollectionRoute.appliedFilters v)
     = [Some "Min: $10"; Some "Max: $25"]%string.
Proof. vm_compute. split; reflexivity. Qed.

End RuntimeExamples.

(** ** The collection route: search parameters to filters *)

Section CollectionFacts.

Import CollectionRoute.

Lemma loop_body_appends (fs : list FilterParam) (afs : list AppliedFilter)
    (entry : string * string) :
  loop_body (fs, afs) entry = (fs ++ clauses_of entry, afs ++ descriptors_of entry)%list.
Proof.
  unfold clauses_of, descriptors_of, loop_body, Js.push.
  destruct entry as [k v].
  destruct (String.eqb available k); [reflexivity|].
  destruct (Array_includes knownFilters k); [reflexivity|].
  destruct (Js.includes k variantOption); [reflexivity|].
  cbn [fst snd]. now rewrite !app_nil_r.
Qed.

Lemma loop_appends (l : list (string * string)) :
  forall fs afs,
    fold_left loop_body l (fs, afs)
    = (fs ++ flat_map clauses_of l, afs ++ flat_map descriptors_of l)%list.
Proof.
  induction l as [|entry l IH]; intros fs afs; cbn [fold_left flat_map].
  - now rewrite !app_nil_r.
  - rewrite loop_body_appends, IH, <- !app_assoc. reflexivity.
Qed.

Lemma has_get (name : string) (searchParams : URLSearchParams) :
  has name searchParams
  = match get name searchParams with Some _ => true | None => false end.
Proof.
  unfold has.
  induction searchParams as [|[k v] rest IH]; cbn [existsb get fst]; [reflexivity|].
  destruct (String.eqb k name); [reflexivity|]. exact IH.
Qed.

Lemma price_bound_get (name text : string) (searchParams : URLSearchParams) :
  get name searchParams = Some text ->
  price_bound name searchParams = bound_of_text text.
Proof.
  intros Hget. unfold price_bound, bound_of_text. rewrite Hget. cbn [Js.of_nullable Js.ToNumber Js.ToBoolean].
  destruct (Js.is_zero (Js.StringToNumber text) || Js.is_nan (Js.StringToNumber text));
    reflexivity.
Qed.

Lemma price_block_appends (searchParams : URLSearchParams)
    (fs : list FilterParam) (afs : list AppliedFilter) :
  price_block searchParams (fs, afs)
  = (fs ++ price_clause (get "minPrice" searchParams) (get "maxPrice" searchParams),
     afs ++ price_descriptors (get "minPrice" searchParams) (get "maxPrice" searchParams))%list.
Proof.
  unfold price_block, price_clause, price_descriptors, price_descriptor, Js.push.
  rewrite !has_get.
  destruct (get "minPrice" searchParams) as [tmin|] eqn:Hmin;
    destruct (get "maxPrice" searchParams) as [tmax|] eqn:Hmax;
    cbn [orb option_map app];
    rewrite ?(price_bound_get _ _ _ Hmin), ?(price_bound_get _ _ _ Hmax),
      ?app_nil_r, <- ?app_assoc;
    reflexivity.
Qed.

Lemma loader_filters (searchParams : URLSearchParams) :
  filters (loader searchParams)
  = (flat_map clauses_of searchParams
     ++ price_clause (get "minPrice" searchParams) (get "maxPrice" searchParams))%list.
Proof.
  unfold loader, entries. rewrite loop_appends, price_block_appends. reflexivity.
Qed.

Lemma loader_appliedFilters (searchParams : URLSearchParams) :
  appliedFilters (loader searchParams)
  = (flat_map descriptors_of searchParams
     ++ price_descriptors (get "minPrice" searchParams) (get "maxPrice" searchParams))%list.
Proof.
  unfold loader, entries. rewrite loop_appends, price_block_appends. reflexivity.
Qed.

Lemma get_app (name : string) (l1 l2 : URLSearchParams) :
  get name (l1 ++ l2)%list
  = match get name l1 with Some v => Some v | None => get name l2 end.
Proof.
  induction l1 as [|[k v] l1 IH]; cbn [app get]; [reflexivity|].
  destruct (String.eqb k name); [reflexivity | exact IH].
Qed.

(** A price parameter can move to the front of the query string, past
    parameters of other names, and every [get] stays what it was. *)
Lemma get_moved (name k v : string) (l1 l2 : URLSearchParams) :
  get k l1 = None ->
  get name (l1 ++ (k, v) :: l2)%list = get name ((k, v) :: l1 ++ l2)%list.
Proof.
  intros Hk. rewrite get_app. cbn [get]. rewrite get_app.
  destruct (String.eqb_spec k name) as [->|Hne].
  - now rewrite Hk.
  - reflexivity.
Qed.

Lemma split_pieces (v : string) :
  nth_error (Js.split ":" v) 0 = Some (until_colon v)
  /\ nth_error (Js.split ":" v) 1 = option_map until_colon (after_colon v).
Proof.
  induction v as [|c v [IH0 IH1]]; cbn [Js.split until_colon after_colon].
  - split; reflexivity.
  - destruct (Ascii.eqb c ":").
    + split; [reflexivity | exact IH0].
    + destruct (Js.split ":" v) as [|piece pieces]; [discriminate IH0|].
      cbn [nth_error] in *. split; [congruence | exact IH1].
Qed.

Lemma variant_key_reaches_branch (k : string) :
  Js.includes k variantOption = true ->
  String.eqb available k = false /\ Array_includes knownFilters k = false.
Proof.
  intros Hk. split.
  - destruct (String.eqb_spec available k) as [<-|]; [discriminate Hk | reflexivity].
  - unfold Array_includes, knownFilters. cbn [existsb].
    destruct (String.eqb_spec k "productVendor") as [->|]; [discriminate Hk|].
    destruct (String.eqb_spec k "productType") as [->|]; [discriminate Hk|].
    reflexivity.
Qed.

Lemma known_key_not_available (k : string) :
  In k knownFilters ->
  String.eqb available k = false /\ Array_includes knownFilters k = true.
Proof.
  intros [<-|[<-|[]]]; split; reflexivity.
Qed.

Lemma in_loader (entry : string * string) (searchParams : URLSearchParams)
    (f : FilterParam) (d : AppliedFilter) :
  In entry searchParams ->
  In f (clauses_of entry) ->
  In d (descriptors_of entry) ->
  In f (filters (loader searchParams)) /\ In d (appliedFilters (loader searchParams)).
Proof.
  intros Hin Hf Hd. rewrite loader_filters, loader_appliedFilters.
  split; apply in_or_app; left; apply in_flat_map; exists entry; auto.
Qed.

(** C5.  The sort lookup gives a result for every token and for the absent
    token: [price-high-low] gives PRICE reversed, the absent token and every
    token outside the five of the switch give RELEVANCE not reversed, and
    every result is one of the six pairs of the switch. *)
Theorem getSortValuesFromParam_total :
  getSortValuesFromParam (Some "price-high-low") = {| sortKey := PRICE; reverse := true |}
  /\ getSortValuesFromParam None = {| sortKey := RELEVANCE; reverse := false |}
  /\ (forall token : string,
        ~ In token sort_tokens ->
        getSortValuesFromParam (Some token) = {| sortKey := RELEVANCE; reverse := false |})
  /\ (forall sortParam : option string,
        In (getSortValuesFromParam sortParam)
           [ {| sortKey := PRICE; reverse := true |};
             {| sortKey := PRICE; reverse := false |};
             {| sortKey := BEST_SELLING; reverse := false |};
             {| sortKey := CREATED; reverse := true |};
             {| sortKey := MANUAL; reverse := false |};
             {| sortKey := RELEVANCE; reverse := false |} ]).
Proof.
  split; [reflexivity|]. split; [reflexivity|]. split.
  - intros token Hnot. unfold getSortValuesFromParam.
    repeat match goal with
    | |- context [String.eqb token ?t] =>
        destruct (String.eqb_spec token t) as [->|_];
        [exfalso; apply Hnot; cbn; tauto|]
    end.
    reflexivity.
  - intros [token|]; unfold getSortValuesFromParam.
    + repeat match goal with
      | |- context [String.eqb token ?t] => destruct (String.eqb token t)
      end; cbn; tauto.
    + cbn; tauto.
Qed.

(** C6.  A parameter named [available] adds the clause [{available: b}]
    with [b] true exactly when the value is the string [true], and a
    descriptor labelled [In stock] when it is and [Out of stock] when it is
    not; both are in what the loader hands on. *)
Theorem available_clause (v : string) :
  exists (b : bool) (text : string),
    (b = true <-> v = "true")
    /\ text = (if b then "In stock" else "Out of stock")
    /\ (forall fs afs,
          loop_body (fs, afs) ("available", v)
          = (fs ++ [Available b],
             afs ++ [{| label := Some text;
                        urlParam := {| key := "available"; value := Some v |} |}])%list)
    /\ (forall searchParams,
          In ("available", v) searchParams ->
          In (Available b) (filters (loader searchParams))
          /\ In {| label := Some text;
                   urlParam := {| key := "available"; value := Some v |} |}
                (appliedFilters (loader searchParams))).
Proof.
  exists (String.eqb v "true"), (if String.eqb v "true" then "In stock" else "Out of stock").
  split; [apply String.eqb_eq|]. split; [reflexivity|]. split.
  - intros fs afs. reflexivity.
  - intros searchParams Hin. apply (in_loader ("available", v)); cbn; auto.
Qed.

(** C7.  A parameter whose name is in the allow-list ([productVendor],
    [productType]) adds the clause [{name: value}] and a descriptor whose
    label is the value as it came; both are in what the loader hands on. *)
Theorem known_filter_clause (k v : string) :
  In k knownFilters ->
  (forall fs afs,
     loop_body (fs, afs) (k, v)
     = (fs ++ [Known k v],
        afs ++ [{| label := Some v; urlParam := {| key := k; value := Some v |} |}])%list)
  /\ (forall searchParams,
        In (k, v) searchParams ->
        In (Known k v) (filters (loader searchParams))
        /\ In {| label := Some v; urlParam := {| key := k; value := Some v |} |}
              (appliedFilters (loader searchParams))).
Proof.
  intros Hk. destruct (known_key_not_available k Hk) as [Ha Hi].
  assert (Hbody : forall fs afs,
     loop_body (fs, afs) (k, v)
     = (fs ++ [Known k v],
        afs ++ [{| label := Some v; urlParam := {| key := k; value := Some v |} |}])%list).
  { intros fs afs. unfold loop_body. now rewrite Ha, Hi. }
  split; [exact Hbody|].
  intros searchParams Hin. apply (in_loader (k, v)); auto.
  - unfold clauses_of. rewrite Hbody. cbn; auto.
  - unfold descriptors_of. rewrite Hbody. cbn; auto.
Qed.

Lemma known_filter_clause_witness :
  In "productVendor" knownFilters
  /\ In (Known "productVendor" "Acme")
        (filters (loader [("sort", "newest"); ("productVendor", "Acme")])).
Proof.
  split.
  - cbn; auto.
  - apply (known_filter_clause "productVendor" "Acme"); cbn; auto.
Defined.

Lemma until_colon_all (s : string) : after_colon s = None -> until_colon s = s.
Proof.
  induction s as [|c s IH]; cbn [after_colon until_colon]; [reflexivity|].
  destruct (Ascii.eqb c ":"); [discriminate|].
  intros Hnone. now rewrite IH.
Qed.

(** C4, as the code has it.  A parameter whose name contains
    [variantOption] adds the clause [{variantOption: {name, value}}] where
    [name] is the text before the first colon of the parameter's value and
    [value] is the text between the first colon and the second (the text after
    the first colon when there is no second one, undefined when there is no
    colon at all), and a descriptor labelled with that [value]; both are in
    what the loader hands on. *)
Theorem variant_option_clause (k v : string) :
  Js.includes k variantOption = true ->
  (forall fs afs,
     loop_body (fs, afs) (k, v)
     = (fs ++ [VariantOption (Some (until_colon v))
                             (option_map until_colon (after_colon v))],
        afs ++ [{| label := option_map until_colon (after_colon v);
                   urlParam := {| key := k; value := Some v |} |}])%list)
  /\ (forall searchParams,
        In (k, v) searchParams ->
        In (VariantOption (Some (until_colon v)) (option_map until_colon (after_colon v)))
           (filters (loader searchParams))
        /\ In {| label := option_map until_colon (after_colon v);
                 urlParam := {| key := k; value := Some v |} |}
              (appliedFilters (loader searchParams)))
  /\ (forall rest,
        after_colon v = Some rest -> after_colon rest = None ->
        option_map until_colon (after_colon v) = Some rest).
Proof.
  intros Hk. destruct (variant_key_reaches_branch k Hk) as [Ha Hi].
  destruct (split_pieces v) as [H0 H1].
  assert (Hbody : forall fs afs,
     loop_body (fs, afs) (k, v)
     = (fs ++ [VariantOption (Some (until_colon v))
                             (option_map until_colon (after_colon v))],
        afs ++ [{| label := option_map until_colon (after_colon v);
                   urlParam := {| key := k; value := Some v |} |}])%list).
  { intros fs afs. unfold loop_body. now rewrite Ha, Hi, Hk, H0, H1. }
  split; [exact Hbody|]. split.
  - intros searchParams Hin. apply (in_loader (k, v)); auto.
    + unfold clauses_of. rewrite Hbody. cbn; auto.
    + unfold descriptors_of. rewrite Hbody. cbn; auto.
  - intros rest Hrest Hnone. rewrite Hrest. cbn [option_map].
    now rewrite until_colon_all.
Qed.

Lemma variant_option_clause_witness :
  Js.includes "filter.variantOption" variantOption = true
  /\ In (VariantOption (Some "Size") (Some "A"))
        (filters (loader [("filter.variantOption", "Size:A:B")])).
Proof.
  split.
  - reflexivity.
  - apply (variant_option_clause "filter.variantOption" "Size:A:B"); cbn; auto.
Defined.

(** C4, counterexample.  The value of the clause is not always the text
    after the first colon: at [variantOption=Size:A:B] that text is [A:B],
    and the clause and the label carry [A]. *)
Lemma variant_option_value_is_not_the_rest :
  ~ (forall k v rest : string,
       Js.includes k variantOption = true ->
       after_colon v = Some rest ->
       forall fs afs,
         loop_body (fs, afs) (k, v)
         = (fs ++ [VariantOption (Some (until_colon v)) (Some rest)],
            afs ++ [{| label := Some rest;
                       urlParam := {| key := k; value := Some v |} |}])%list).
Proof.
  intros Hclaim.
  specialize (Hclaim "variantOption" "Size:A:B" "A:B" eq_refl eq_refl [] []).
  vm_compute in Hclaim. discriminate Hclaim.
Qed.

Lemma loader_fields (searchParams : URLSearchParams) :
  loader searchParams
  = {| v_sortKey := sortKey (getSortValuesFromParam (get "sort" searchParams));
       v_reverse := reverse (getSortValuesFromParam (get "sort" searchParams));
       cursor := get "cursor" searchParams;
       filters :=
         flat_map clauses_of searchParams
         ++ price_clause (get "minPrice" searchParams) (get "maxPrice" searchParams);
       appliedFilters :=
         flat_map descriptors_of searchParams
         ++ price_descriptors (get "minPrice" searchParams) (get "maxPrice" searchParams) |}.
Proof.
  unfold loader, entries. rewrite loop_appends, price_block_appends. reflexivity.
Qed.

Lemma price_keys_skipped (k v : string) :
  k = "minPrice" \/ k = "maxPrice" ->
  clauses_of (k, v) = [] /\ descriptors_of (k, v) = [].
Proof.
  intros [->| ->]; split; reflexivity.
Qed.

(** C8.  The clauses and the descriptors of the loader are those of the
    parameters one after the other in the order of the query string (each
    parameter gives at most one of each), followed by the price clause and the
    price descriptors, which depend on the first [minPrice] and the first
    [maxPrice] value alone: a price parameter gives nothing at its own place,
    and moving it to the front of the query string changes nothing. *)
Theorem filters_in_encounter_order (searchParams : URLSearchParams) :
  filters (loader searchParams)
  = (flat_map clauses_of searchParams
     ++ price_clause (get "minPrice" searchParams) (get "maxPrice" searchParams))%list
  /\ appliedFilters (loader searchParams)
     = (flat_map descriptors_of searchParams
        ++ price_descriptors (get "minPrice" searchParams) (get "maxPrice" searchParams))%list
  /\ (forall entry,
        (List.length (clauses_of entry) <= 1)%nat
        /\ (List.length (descriptors_of entry) <= 1)%nat)
  /\ (forall k v,
        k = "minPrice" \/ k = "maxPrice" ->
        clauses_of (k, v) = [] /\ descriptors_of (k, v) = [])
  /\ (forall k v l1 l2,
        k = "minPrice" \/ k = "maxPrice" ->
        searchParams = (l1 ++ (k, v) :: l2)%list ->
        get k l1 = None ->
        loader searchParams = loader ((k, v) :: l1 ++ l2)%list).
Proof.
  split; [apply loader_filters|]. split; [apply loader_appliedFilters|]. split; [|split].
  - intros [k v]. unfold clauses_of, descriptors_of, loop_body, Js.push.
    destruct (String.eqb available k); [cbn; lia|].
    destruct (Array_includes knownFilters k); [cbn; lia|].
    destruct (Js.includes k variantOption); cbn; lia.
  - apply price_keys_skipped.
  - intros k v l1 l2 Hk -> Hfirst.
    destruct (price_keys_skipped k v Hk) as [Hc Hd].
    rewrite !loader_fields, !(get_moved _ k v l1 l2 Hfirst).
    rewrite !flat_map_app. cbn [flat_map].
    rewrite !flat_map_app, Hc, Hd. reflexivity.
Qed.

(** C3, as the code has it.  When [minPrice] or [maxPrice] is present the
    loader adds, after the clauses of the scan, one price clause with a bound
    for each of the two names that is present and no bound for one that is
    not, and after the descriptors of the scan one descriptor for each present
    bound, [Min: $] before [Max: $], labelled with the bound.  The bound is
    the Number value of the first value under the name, with +0 in place of
    NaN; it is never NaN, and it keeps its sign.  The text [abc] gives
    the bound +0 and the label [Min: $0]. *)
Theorem price_clause_and_descriptors (searchParams : URLSearchParams) :
  has "minPrice" searchParams || has "maxPrice" searchParams = true ->
  filters (loader searchParams)
  = (flat_map clauses_of searchParams
     ++ [Price {| min := option_map bound_of_text (get "minPrice" searchParams);
                  max := option_map bound_of_text (get "maxPrice" searchParams) |}])%list
  /\ appliedFilters (loader searchParams)
     = (flat_map descriptors_of searchParams
        ++ price_descriptor "minPrice" "Min: $" (get "minPrice" searchParams)
        ++ price_descriptor "maxPrice" "Max: $" (get "maxPrice" searchParams))%list
  /\ (has "minPrice" searchParams = true <-> get "minPrice" searchParams <> None)
  /\ (has "maxPrice" searchParams = true <-> get "maxPrice" searchParams <> None)
  /\ (forall text,
        Js.is_nan (bound_of_text text) = false
        /\ (Js.is_nan (Js.StringToNumber text) = true -> bound_of_text text = Js.zero)
        /\ (Js.is_nan (Js.StringToNumber text) = false ->
            Js.is_zero (Js.StringToNumber text) = false ->
            bound_of_text text = Js.StringToNumber text))
  /\ bound_of_text "abc" = Js.zero
  /\ price_descriptor "minPrice" "Min: $" (Some "abc")
     = [{| label := Some "Min: $0";
           urlParam := {| key := "minPrice"; value := Some "abc" |} |}].
Proof.
  intros Hhas. rewrite loader_filters, loader_appliedFilters.
  rewrite !has_get in *. unfold price_clause, price_descriptors.
  repeat split; try reflexivity.
  - destruct (get "minPrice" searchParams), (get "maxPrice" searchParams);
      try reflexivity. discriminate Hhas.
  - destruct (get "minPrice" searchParams); intuition congruence.
  - destruct (get "minPrice" searchParams); intuition congruence.
  - destruct (get "maxPrice" searchParams); intuition congruence.
  - destruct (get "maxPrice" searchParams); intuition congruence.
  - unfold bound_of_text.
    destruct (Js.StringToNumber text); reflexivity.
  - unfold bound_of_text. intros ->. now rewrite orb_true_r.
  - unfold bound_of_text. intros -> ->. reflexivity.
Qed.

Lemma price_clause_and_descriptors_witness :
  has "minPrice" [("minPrice", "abc")] || has "maxPrice" [("minPrice", "abc")] = true
  /\ filters (loader [("minPrice", "abc")])
     = [Price {| min := Some Js.zero; max := None |}]
  /\ appliedFilters (loader [("minPrice", "abc")])
     = [{| label := Some "Min: $0";
           urlParam := {| key := "minPrice"; value := Some "abc" |} |}].
Proof.
  split; [reflexivity|].
  destruct (price_clause_and_descriptors [("minPrice", "abc")] eq_refl)
    as (Hf & Ha & _).
  split; [rewrite Hf | rewrite Ha]; reflexivity.
Defined.

(** C3, counterexample.  A bound of the price clause can be negative:
    [minPrice=-5] gives the bound -5. *)
Lemma price_bound_can_be_negative :
  ~ (forall (searchParams : URLSearchParams) (price : PriceRange) (m : Js.number),
       In (Price price) (filters (loader searchParams)) ->
       min price = Some m \/ max price = Some m ->
       is_negative m = false).
Proof.
  intros Hclaim.
  specialize (Hclaim [("minPrice", "-5")]
                     {| min := Some (Js.of_Z (-5)); max := None |} (Js.of_Z (-5))).
  assert (Hneg : is_negative (Js.of_Z (-5)) = false).
  { apply Hclaim; [vm_compute; left; reflexivity | left; reflexivity]. }
  vm_compute in Hneg. discriminate Hneg.
Qed.

End CollectionFacts.

(** ** The product route: review pages *)

Section ReviewPages.

Import ProductRoute.

Variable source : ReviewSource.
Variable externalID : Js.value.

(** The run of [getReviewsWithID] from [page] when the [k] pages from
    [page] on have reviews and the next one is empty. *)
Lemma getReviewsWithID_run (k : nat) :
  forall (page : Z) (products : list Review) (fuel : nat),
    (forall i, (i < k)%nat ->
       exists l, source (page + Z.of_nat i) = Some l /\ l <> []) ->
    source (page + Z.of_nat k) = Some [] ->
    (k < fuel)%nat ->
    getReviewsWithID fuel source externalID page products
    = (page_numbers page (S k),
       Js.Returned (products ++ filter (matches externalID) (pages source page k))).
Proof.
  induction k as [|k IH]; intros page products fuel Hfull Hempty Hfuel;
    (destruct fuel as [|fuel]; [lia|]); cbn [getReviewsWithID].
  - rewrite Z.add_0_r in Hempty. rewrite Hempty. cbn.
    now rewrite app_nil_r.
  - destruct (Hfull O ltac:(lia)) as (l & Hl & Hne).
    rewrite Z.add_0_r in Hl. rewrite Hl.
    destruct l as [|r l]; [congruence|]. cbn [List.length Nat.eqb].
    rewrite (IH (page + 1) _ fuel).
    + cbn [page_numbers pages]. rewrite Hl, filter_app, app_assoc. reflexivity.
    + intros i Hi. destruct (Hfull (S i) ltac:(lia)) as (l' & Hl' & Hne').
      exists l'. split; [|exact Hne'].
      rewrite <- Hl'. f_equal. lia.
    + rewrite <- Hempty. f_equal. lia.
    + lia.
Qed.

(** A source that has an empty page among the first [n + 1] has a first
    one. *)
Lemma first_empty_page (n : nat) :
  forall first : Z,
    source (first + Z.of_nat n) = Some [] ->
    exists k, (k <= n)%nat
      /\ source (first + Z.of_nat k) = Some []
      /\ forall i, (i < k)%nat -> source (first + Z.of_nat i) <> Some [].
Proof.
  induction n as [|n IH]; intros first Hempty.
  - exists O. split; [lia|]. split; [exact Hempty|]. intros i Hi. lia.
  - destruct (source first) as [[|r l]|] eqn:Hfirst.
    + exists O. rewrite Z.add_0_r. split; [lia|]. split; [exact Hfirst|].
      intros i Hi. lia.
    + destruct (IH (first + 1)) as (k & Hk & Hke & Hbefore).
      { rewrite <- Hempty. f_equal. lia. }
      exists (S k). split; [lia|]. split.
      * rewrite <- Hke. f_equal. lia.
      * intros [|i] Hi.
        -- rewrite Z.add_0_r, Hfirst. discriminate.
        -- replace (first + Z.of_nat (S i)) with (first + 1 + Z.of_nat i) by lia.
           apply Hbefore. lia.
    + destruct (IH (first + 1)) as (k & Hk & Hke & Hbefore).
      { rewrite <- Hempty. f_equal. lia. }
      exists (S k). split; [lia|]. split.
      * rewrite <- Hke. f_equal. lia.
      * intros [|i] Hi.
        -- rewrite Z.add_0_r, Hfirst. discriminate.
        -- replace (first + Z.of_nat (S i)) with (first + 1 + Z.of_nat i) by lia.
           apply Hbefore. lia.
Qed.

(** C2.  When the source delivers its pages and page [n + 1] is empty,
    there is a first empty page [k + 1], and with fuel for [k + 1] calls
    [getReviewsWithID] from page 1 requests the pages 1, 2, ..., [k + 1] in
    this order, each once, and returns the reviews of the pages 1 .. [k]
    whose [product_external_id] is strictly equal to [externalID], in the
    order of the pages and, within a page, of the page. *)
Theorem getReviewsWithID_collects (n : nat) :
  source (1 + Z.of_nat n) = Some [] ->
  (forall i, (i < n)%nat -> source (1 + Z.of_nat i) <> None) ->
  exists k,
    (k <= n)%nat
    /\ source (1 + Z.of_nat k) = Some []
    /\ (forall i, (i < k)%nat -> source (1 + Z.of_nat i) <> Some [])
    /\ forall fuel, (k < fuel)%nat ->
         getReviewsWithID fuel source externalID 1 []
         = (page_numbers 1 (S k),
            Js.Returned (filter (matches externalID) (pages source 1 k))).
Proof.
  intros Hempty Hdelivered.
  destruct (first_empty_page n 1 Hempty) as (k & Hk & Hke & Hbefore).
  exists k. repeat split; auto.
  intros fuel Hfuel.
  rewrite (getReviewsWithID_run k 1 [] fuel); auto.
  intros i Hi.
  specialize (Hbefore i Hi). specialize (Hdelivered i ltac:(lia)).
  destruct (source (1 + Z.of_nat i)) as [l|]; [|congruence].
  exists l. split; [reflexivity|]. intros ->. now apply Hbefore.
Qed.

End ReviewPages.

Lemma getReviewsWithID_collects_witness :
  let wanted := Js.Str "p1" in
  let r1 := {| ProductRoute.product_external_id := Js.Str "p1";
               ProductRoute.rating := Js.Number (Js.of_Z 5) |} in
  let r2 := {| ProductRoute.product_external_id := Js.Str "p2";
               ProductRoute.rating := Js.Number (Js.of_Z 1) |} in
  let r3 := {| ProductRoute.product_external_id := Js.Str "p1";
               ProductRoute.rating := Js.Number (Js.of_Z 4) |} in
  let source := fun page =>
    if page =? 1 then Some [r1; r2] else if page =? 2 then Some [r3] else Some [] in
  ProductRoute.getReviewsWithID 5 source wanted 1 []
  = ([1; 2; 3], Js.Returned [r1; r3]).
Proof.
  intros wanted r1 r2 r3 source.
  destruct (getReviewsWithID_collects source wanted 4 eq_refl) as (k & Hk & Hke & Hbefore & Hrun).
  - intros i _. unfold source.
    destruct (1 + Z.of_nat i =? 1); [discriminate|].
    destruct (1 + Z.of_nat i =? 2); discriminate.
  - destruct k as [|[|[|k]]].
    + discriminate Hke.
    + discriminate Hke.
    + apply (Hrun 5%nat). lia.
    + exfalso. apply (Hbefore 2%nat); [lia | reflexivity].
Defined.

(** ** The product route: recommended products *)

Section ArrayFacts.

Context {A : Type}.

Lemma findIndex_absent (f : A -> bool) (l : list A) :
  existsb f l = false -> Js.findIndex f l = -1.
Proof.
  induction l as [|x l IH]; cbn [existsb Js.findIndex]; [reflexivity|].
  destruct (f x); [discriminate|]. intros Hl. now rewrite (IH Hl).
Qed.

Lemma findIndex_present (f : A -> bool) (l : list A) :
  existsb f l = true -> 0 <= Js.findIndex f l < Z.of_nat (List.length l).
Proof.
  induction l as [|x l IH]; cbn [existsb Js.findIndex List.length]; [discriminate|].
  destruct (f x); cbn [orb]; [lia|].
  intros Hl. specialize (IH Hl).
  destruct (Z.ltb_spec (Js.findIndex f l) 0); lia.
Qed.

Lemma findIndex_app (f : A -> bool) (pre rest : list A) :
  Js.findIndex f (pre ++ rest)
  = if existsb f pre then Js.findIndex f pre
    else if Js.findIndex f rest <? 0 then -1
         else Z.of_nat (List.length pre) + Js.findIndex f rest.
Proof.
  induction pre as [|x pre IH]; cbn [app existsb Js.findIndex List.length].
  - destruct (Z.ltb_spec (Js.findIndex f rest) 0) as [Hneg|]; [|lia].
    destruct (existsb f rest) eqn:He.
    + pose proof (findIndex_present f rest He). lia.
    + now apply findIndex_absent.
  - destruct (f x); cbn [orb]; [reflexivity|].
    rewrite IH. destruct (existsb f pre) eqn:He; [reflexivity|].
    destruct (Z.ltb_spec (Js.findIndex f rest) 0); [reflexivity|].
    destruct (Z.ltb_spec (Z.of_nat (List.length pre) + Js.findIndex f rest) 0); lia.
Qed.

Lemma findIndex_map {B : Type} (g : A -> B) (f : B -> bool) (l : list A) :
  Js.findIndex f (map g l) = Js.findIndex (fun x => f (g x)) l.
Proof.
  induction l as [|x l IH]; cbn [map Js.findIndex]; [reflexivity|].
  now rewrite IH.
Qed.

Lemma filter_indexed_ext (f g : A -> Z -> bool) (l : list A) :
  forall i,
    (forall x j, f x j = g x j) ->
    Js.filter_indexed f i l = Js.filter_indexed g i l.
Proof.
  induction l as [|x l IH]; intros i Hfg; cbn [Js.filter_indexed]; [reflexivity|].
  rewrite Hfg, (IH (i + 1) Hfg). reflexivity.
Qed.

Lemma splice_last (l : list A) : Js.splice l (-1) 1 = removelast l.
Proof.
  unfold Js.splice. cbn [Z.ltb Z.compare].
  rewrite removelast_firstn_len.
  destruct l as [|x l]; [reflexivity|].
  cbn [List.length].
  replace (Z.max (Z.of_nat (S (List.length l)) + -1) 0) with (Z.of_nat (List.length l)) by lia.
  replace (Z.min (Z.max 1 0) (Z.of_nat (S (List.length l)) - Z.of_nat (List.length l)))
    with 1 by lia.
  rewrite Nat2Z.id.
  replace (Z.to_nat (Z.of_nat (List.length l) + 1)) with (S (List.length l)) by lia.
  cbn [Nat.pred]. rewrite skipn_all2 by (cbn [List.length]; lia). now rewrite app_nil_r.
Qed.

Lemma splice_head (x : A) (l : list A) : Js.splice (x :: l) 0 1 = l.
Proof.
  unfold Js.splice. cbn [Z.ltb Z.compare List.length].
  replace (Z.min 0 (Z.of_nat (S (List.length l)))) with 0 by lia.
  replace (Z.min (Z.max 1 0) (Z.of_nat (S (List.length l)) - 0)) with 1 by lia.
  reflexivity.
Qed.

Lemma splice_tail (x : A) (l : list A) (i : Z) :
  0 <= i -> Js.splice (x :: l) (i + 1) 1 = x :: Js.splice l i 1.
Proof.
  intros Hi. unfold Js.splice. cbn [List.length].
  destruct (Z.ltb_spec (i + 1) 0); [lia|].
  destruct (Z.ltb_spec i 0); [lia|].
  set (len := Z.of_nat (List.length l)).
  replace (Z.of_nat (S (List.length l))) with (len + 1) by lia.
  replace (Z.min (i + 1) (len + 1)) with (Z.min i len + 1) by lia.
  replace (len + 1 - (Z.min i len + 1)) with (len - Z.min i len) by lia.
  set (a := Z.min i len).
  set (c := Z.min (Z.max 1 0) (len - a)).
  assert (0 <= a) by (unfold a, len; lia).
  assert (0 <= c) by (unfold c, a, len; lia).
  replace (Z.to_nat (a + 1)) with (S (Z.to_nat a)) by lia.
  replace (Z.to_nat (a + 1 + c)) with (S (Z.to_nat (a + c))) by lia.
  reflexivity.
Qed.

End ArrayFacts.

Section Recommended.

Import ProductRoute.

Lemma existsb_ids (s : string) (l : list Product) :
  existsb (String.eqb s) (map id l) = existsb (fun q => String.eqb (id q) s) l.
Proof.
  induction l as [|q l IH]; cbn [map existsb]; [reflexivity|].
  now rewrite IH, String.eqb_sym.
Qed.

(** Keeping the elements that [findIndex] finds at their own index keeps
    the first product of each id. *)
Lemma first_occurrences (l : list Product) :
  forall (pre : list Product) (seen : list string),
    (forall s, existsb (String.eqb s) seen = existsb (fun q => String.eqb (id q) s) pre) ->
    Js.filter_indexed
      (fun value index => Js.findIndex (same_id value) (pre ++ l) =? index)
      (Z.of_nat (List.length pre)) l
    = dedup_by_id seen l.
Proof.
  induction l as [|p l IH]; intros pre seen Hseen; cbn [Js.filter_indexed dedup_by_id];
    [reflexivity|].
  assert (Hshift : forall value,
    Js.findIndex (same_id value) (pre ++ p :: l)
    = Js.findIndex (same_id value) ((pre ++ [p]) ++ l)).
  { intros value. now rewrite <- app_assoc. }
  assert (Hlen : Z.of_nat (List.length pre) + 1 = Z.of_nat (List.length (pre ++ [p]))).
  { rewrite length_app. cbn [List.length]. lia. }
  rewrite findIndex_app, Hseen. fold (same_id p).
  destruct (existsb (same_id p) pre) eqn:Hpre.
  - pose proof (findIndex_present _ _ Hpre) as Hrange.
    destruct (Z.eqb_spec (Js.findIndex (same_id p) pre) (Z.of_nat (List.length pre))); [lia|].
    rewrite Hlen.
    erewrite filter_indexed_ext; [apply (IH (pre ++ [p]) seen)|].
    + intros s. rewrite existsb_app, Hseen. cbn [existsb].
      destruct (String.eqb_spec (id p) s) as [<-|]; [|now rewrite !orb_false_r].
      unfold same_id in Hpre. rewrite Hpre. reflexivity.
    + intros value index. now rewrite Hshift.
  - assert (Hpp : same_id p p = true) by apply String.eqb_refl.
    cbn [Js.findIndex]. rewrite Hpp.
    cbn [Z.ltb Z.compare]. rewrite Z.add_0_r, Z.eqb_refl.
    f_equal. rewrite Hlen.
    erewrite filter_indexed_ext; [apply (IH (pre ++ [p]) (id p :: seen))|].
    + intros s. rewrite existsb_app. cbn [existsb]. rewrite Hseen, orb_false_r.
      now rewrite orb_comm, String.eqb_sym.
    + intros value index. now rewrite Hshift.
Qed.

Lemma splice_found (productId : string) (l : list Product) :
  has_id productId l = true ->
  Js.splice l (Js.findIndex (fun x => String.eqb x productId) (map id l)) 1
  = remove_id productId l.
Proof.
  rewrite findIndex_map. unfold has_id.
  induction l as [|p l IH]; cbn [existsb Js.findIndex remove_id]; [discriminate|].
  destruct (String.eqb (id p) productId); cbn [orb].
  - intros _. apply splice_head.
  - intros Hl. pose proof (findIndex_present _ _ Hl) as Hrange.
    destruct (Z.ltb_spec (Js.findIndex (fun x => String.eqb (id x) productId) l) 0); [lia|].
    rewrite splice_tail by lia. now rewrite (IH Hl).
Qed.

Lemma seen_spec (s : string) (seen : list string) :
  existsb (String.eqb s) seen = true <-> In s seen.
Proof.
  rewrite existsb_exists. split.
  - intros (x & Hin & Heq). apply String.eqb_eq in Heq. now subst.
  - intros Hin. exists s. split; [exact Hin | apply String.eqb_refl].
Qed.

Lemma has_id_spec (productId : string) (l : list Product) :
  has_id productId l = true <-> In productId (map id l).
Proof.
  unfold has_id. rewrite existsb_exists, in_map_iff. split.
  - intros (p & Hin & Heq). apply String.eqb_eq in Heq. now exists p.
  - intros (p & Heq & Hin). exists p. split; [exact Hin | now apply String.eqb_eq].
Qed.

Lemma dedup_ids (l : list Product) :
  forall (seen : list string) (s : string),
    In s (map id (dedup_by_id seen l)) <-> In s (map id l) /\ ~ In s seen.
Proof.
  induction l as [|p l IH]; intros seen s; cbn [dedup_by_id map In]; [tauto|].
  destruct (existsb (String.eqb (id p)) seen) eqn:Hseen.
  - apply seen_spec in Hseen. rewrite IH. intuition (subst; tauto).
  - assert (Hnot : ~ In (id p) seen).
    { intros Hin. apply seen_spec in Hin. congruence. }
    cbn [map In]. rewrite IH. cbn [In].
    destruct (string_dec (id p) s) as [<-|Hne]; tauto.
Qed.

Lemma dedup_nodup (l : list Product) :
  forall seen, NoDup (map id (dedup_by_id seen l)).
Proof.
  induction l as [|p l IH]; intros seen; cbn [dedup_by_id map]; [constructor|].
  destruct (existsb (String.eqb (id p)) seen); [apply IH|].
  cbn [map]. constructor; [|apply IH].
  rewrite dedup_ids. cbn [In]. tauto.
Qed.

Lemma remove_id_gone (productId : string) (l : list Product) :
  NoDup (map id l) -> has_id productId (remove_id productId l) = false.
Proof.
  induction l as [|p l IH]; cbn [map remove_id]; intros Hnd; [reflexivity|].
  inversion Hnd as [|x xs Hnotin Hnd']; subst.
  destruct (String.eqb_spec (id p) productId) as [<-|Hne].
  - destruct (has_id (id p) l) eqn:Hhas; [|reflexivity].
    apply has_id_spec in Hhas. contradiction.
  - unfold has_id in *. cbn [existsb].
    destruct (String.eqb_spec (id p) productId); [contradiction|].
    cbn [orb]. now apply IH.
Qed.

(** C9.  For a storefront response, [getRecommendedProducts] returns the
    [additional] products without repeated ids, the first product of each id
    kept (the [recommended] products play no part), less one product: the
    product of id [productId] when there is one, after which no product of
    this id is left, and the last product otherwise.  The ids kept are those
    of [additional].  Without a response it throws. *)
Theorem getRecommendedProducts_result (response : Recommendations) (productId : string) :
  getRecommendedProducts (Some response) productId
  = Js.Returned
      (if has_id productId (dedup_by_id [] (additional_nodes response))
       then remove_id productId (dedup_by_id [] (additional_nodes response))
       else removelast (dedup_by_id [] (additional_nodes response)))
  /\ NoDup (map id (dedup_by_id [] (additional_nodes response)))
  /\ (forall s, In s (map id (dedup_by_id [] (additional_nodes response)))
                <-> In s (map id (additional_nodes response)))
  /\ has_id productId
       (remove_id productId (dedup_by_id [] (additional_nodes response))) = false
  /\ getRecommendedProducts None productId = Js.Threw.
Proof.
  split; [|split; [apply dedup_nodup | split; [|split; [|reflexivity]]]].
  - unfold getRecommendedProducts. cbn [recommended additional_nodes app].
    f_equal.
    pose proof (first_occurrences (additional_nodes response) [] []) as Hdedup.
    cbn [app List.length Z.of_nat] in Hdedup.
    unfold same_id in Hdedup. rewrite Hdedup by reflexivity.
    destruct (has_id productId (dedup_by_id [] (additional_nodes response))) eqn:Hhas.
    + now apply splice_found.
    + rewrite findIndex_map, findIndex_absent by exact Hhas. apply splice_last.
  - intros s. rewrite dedup_ids. cbn [In]. tauto.
  - apply remove_id_gone, dedup_nodup.
Qed.

End Recommended.

(** ** Numbers: what rounding can and cannot give *)

Section NumberFacts.

Lemma fexp_eq (x : Z) : fexp Js.prec Js.emax x = Z.max (x - 53) (-1074).
Proof. unfold fexp, emin, Js.prec, Js.emax. lia. Qed.

Lemma digits2_size (p : positive) : digits2_pos p = Pos.size p.
Proof. induction p as [p IH|p IH|]; cbn; now rewrite ?IH. Qed.

Lemma Zdigits2_nonneg (z : Z) : 0 <= Zdigits2 z.
Proof. destruct z; cbn; lia. Qed.

Lemma Zdigits2_bound (z D : Z) : 0 <= z < 2 ^ D -> Zdigits2 z <= D.
Proof.
  intros [Hz Hlt].
  assert (HD : 0 <= D).
  { destruct (Z.le_gt_cases 0 D) as [|Hneg]; [assumption|].
    rewrite Z.pow_neg_r in Hlt by lia. lia. }
  destruct z as [|p|p]; cbn [Zdigits2]; [lia| |lia].
  rewrite digits2_size.
  destruct (Z.le_gt_cases (Z.pos (Pos.size p)) D) as [|Hgt]; [assumption|exfalso].
  pose proof (Pos.size_le p) as Hle.
  apply Pos2Z.pos_le_pos in Hle. rewrite Pos2Z.inj_pow, (Pos2Z.inj_xO p) in Hle.
  assert (Hpow : 2 ^ (D + 1) <= 2 ^ Z.pos (Pos.size p))
    by (apply Z.pow_le_mono_r; lia).
  rewrite Z.pow_add_r, Z.pow_1_r in Hpow by lia. lia.
Qed.

Lemma size_gt_Z (p : positive) : Z.pos p < 2 ^ Z.pos (Pos.size p).
Proof.
  pose proof (Pos.size_gt p) as Hgt.
  apply Pos2Z.pos_lt_pos in Hgt. now rewrite Pos2Z.inj_pow in Hgt.
Qed.

Lemma iter_xO (d m : positive) : Z.pos (Pos.iter xO m d) = Z.pos m * 2 ^ Z.pos d.
Proof.
  rewrite (Pos.iter_swap_gen _ _ Z.pos xO (Z.mul 2)) by reflexivity.
  change (Pos.iter (Z.mul 2) (Z.pos m) d) with (Z.shiftl (Z.pos m) (Z.pos d)).
  apply Z.shiftl_mul_pow2. lia.
Qed.

Lemma shl_align_spec (mx : positive) (ex ex' : Z) :
  snd (shl_align mx ex ex') = Z.min ex ex'
  /\ Z.pos (fst (shl_align mx ex ex')) = Z.pos mx * 2 ^ (ex - Z.min ex ex').
Proof.
  unfold shl_align. destruct (ex' - ex) as [|d|d] eqn:Hd; cbn [fst snd].
  - replace (Z.min ex ex') with ex by lia.
    now rewrite Z.sub_diag, Z.pow_0_r, Z.mul_1_r.
  - replace (Z.min ex ex') with ex by lia.
    now rewrite Z.sub_diag, Z.pow_0_r, Z.mul_1_r.
  - replace (Z.min ex ex') with ex' by lia.
    replace (ex - ex') with (Z.pos d) by lia. split; [reflexivity | apply iter_xO].
Qed.

(** *** Shifting to the right *)

Lemma shr_1_m (mrs : shr_record) :
  0 <= shr_m mrs -> 0 <= shr_m (shr_1 mrs) <= shr_m mrs.
Proof.
  destruct mrs as [m r s]. cbn [shr_m shr_1].
  destruct m as [|[p|p|]|p]; cbn [shr_m]; lia.
Qed.

Lemma iter_shr_1_m (p : positive) :
  forall mrs, 0 <= shr_m mrs ->
    0 <= shr_m (iter_pos shr_1 p mrs) <= shr_m mrs.
Proof.
  induction p as [p IH|p IH|]; intros mrs Hm; cbn [iter_pos].
  - pose proof (shr_1_m mrs Hm) as H1.
    pose proof (IH (shr_1 mrs) ltac:(lia)) as H2.
    pose proof (IH (iter_pos shr_1 p (shr_1 mrs)) ltac:(lia)). lia.
  - pose proof (IH mrs Hm) as H1.
    pose proof (IH (iter_pos shr_1 p mrs) ltac:(lia)). lia.
  - now apply shr_1_m.
Qed.

Lemma shr_spec (mrs : shr_record) (e n : Z) :
  0 <= shr_m mrs ->
  0 <= shr_m (fst (shr mrs e n)) <= shr_m mrs
  /\ snd (shr mrs e n) = e + Z.max n 0.
Proof.
  intros Hm. unfold shr. destruct n as [|p|p]; cbn [fst snd]; try lia.
  pose proof (iter_shr_1_m p mrs Hm). lia.
Qed.

Lemma shr_fexp_spec (m e : Z) (l : location) :
  0 <= m ->
  0 <= shr_m (fst (shr_fexp Js.prec Js.emax m e l)) <= m
  /\ snd (shr_fexp Js.prec Js.emax m e l)
     = Z.max e (fexp Js.prec Js.emax (Zdigits2 m + e)).
Proof.
  intros Hm. unfold shr_fexp.
  assert (Hrec : shr_m (shr_record_of_loc m l) = m)
    by (destruct l as [|[| |]]; reflexivity).
  destruct (shr_spec (shr_record_of_loc m l) e
              (fexp Js.prec Js.emax (Zdigits2 m + e) - e)) as [H1 H2];
    rewrite Hrec in *; [assumption|].
  split; [exact H1 | lia].
Qed.

Lemma round_nearest_even_spec (m : Z) (l : location) :
  m <= round_nearest_even m l <= m + 1.
Proof.
  unfold round_nearest_even. destruct l as [|[| |]]; try lia.
  destruct (Z.even m); lia.
Qed.

(** *** [binary_round_aux] on a mantissa that is not negative *)

Lemma binary_round_aux_spec (sx : bool) (mx ex : Z) (lx : location) (D E : Z) :
  0 <= mx < 2 ^ D ->
  ex <= E ->
  let r := binary_round_aux Js.prec Js.emax sx mx ex lx in
  r = S754_zero sx
  \/ (r = S754_infinity sx /\ 971 < Js.next_exponent (D + 1) (Js.next_exponent D E))
  \/ exists m e, r = S754_finite sx m e
       /\ Z.pos m < 2 ^ (D + 1)
       /\ e <= Js.next_exponent (D + 1) (Js.next_exponent D E).
Proof.
  intros Hmx Hex. unfold binary_round_aux.
  pose proof (shr_fexp_spec mx ex lx ltac:(lia)) as [Hm1 He1].
  destruct (shr_fexp Js.prec Js.emax mx ex lx) as [mrs1 e1]. cbn [fst snd] in *.
  set (m1 := round_nearest_even (shr_m mrs1) (loc_of_shr_record mrs1)).
  pose proof (round_nearest_even_spec (shr_m mrs1) (loc_of_shr_record mrs1)) as Hr.
  fold m1 in Hr.
  pose proof (shr_fexp_spec m1 e1 loc_Exact ltac:(lia)) as [Hm2 He2].
  destruct (shr_fexp Js.prec Js.emax m1 e1 loc_Exact) as [mrs2 e2].
  cbn [fst snd] in *.
  assert (HD : 0 <= D).
  { destruct (Z.le_gt_cases 0 D) as [|Hneg]; [assumption|].
    rewrite Z.pow_neg_r in Hmx by lia. lia. }
  assert (Hd0 : Zdigits2 mx <= D) by now apply Zdigits2_bound.
  assert (Hd1 : Zdigits2 m1 <= D + 1).
  { apply Zdigits2_bound. rewrite Z.pow_add_r by lia. lia. }
  assert (Hp1 : 2 ^ (D + 1) = 2 * 2 ^ D) by (rewrite Z.pow_add_r by lia; lia).
  rewrite fexp_eq in He1, He2.
  assert (Hb1 : e1 <= Js.next_exponent D E) by (unfold Js.next_exponent; lia).
  assert (Hb2 : e2 <= Js.next_exponent (D + 1) (Js.next_exponent D E)).
  { unfold Js.next_exponent at 1. lia. }
  cbv zeta.
  destruct (shr_m mrs2) as [|m|m] eqn:Hm; [now left| |lia].
  right. unfold Js.emax, Js.prec. change (1024 - 53) with 971.
  destruct (Z.leb_spec e2 971).
  - right. exists m, e2. repeat split; lia.
  - left. split; [reflexivity | lia].
Qed.

Lemma binary_round_aux_sign (sx : bool) (mx ex : Z) (lx : location) :
  0 <= mx ->
  let r := binary_round_aux Js.prec Js.emax sx mx ex lx in
  r = S754_zero sx \/ r = S754_infinity sx \/ exists m e, r = S754_finite sx m e.
Proof.
  intros Hmx.
  assert (Hlt : 0 <= mx < 2 ^ Z.succ (Z.log2 mx)).
  { destruct (Z.eq_dec mx 0) as [->|]; [cbn; lia|].
    pose proof (Z.log2_spec mx ltac:(lia)). lia. }
  destruct (binary_round_aux_spec sx mx ex lx _ ex Hlt (Z.le_refl ex))
    as [H|[[H _]|(m & e & H & _)]]; cbv zeta; eauto.
Qed.

Lemma binary_round_sign (sx : bool) (mx : positive) (ex : Z) :
  let r := binary_round Js.prec Js.emax sx mx ex in
  r = S754_zero sx \/ r = S754_infinity sx \/ exists m e, r = S754_finite sx m e.
Proof.
  unfold binary_round.
  destruct (shl_align mx ex _) as [mz ez].
  apply binary_round_aux_sign. lia.
Qed.

Lemma sign_clear_not_nan (x : Js.number) : Js.sign_clear x = true -> Js.is_nan x = false.
Proof. destruct x; [reflexivity | reflexivity | discriminate | reflexivity]. Qed.

(** *** The Number value of a small integer, and five times it *)

Lemma of_Z_small (n : Z) :
  0 <= n < 2 ^ 53 ->
  Js.of_Z n = S754_zero false
  \/ exists m e, Js.of_Z n = S754_finite false m e /\ Z.pos m < 2 ^ 54 /\ e <= 1.
Proof.
  intros [Hn Hlt]. unfold Js.of_Z, binary_normalize.
  destruct n as [|p|p]; [now left| |lia]. right.
  unfold binary_round.
  destruct (shl_align_spec p 0 (fexp Js.prec Js.emax (Z.pos (digits2_pos p) + 0)))
    as [Hez Hmz].
  destruct (shl_align p 0 _) as [mz ez]. cbn [fst snd] in Hez, Hmz.
  rewrite fexp_eq, digits2_size in Hez, Hmz.
  pose proof (size_gt_Z p) as Hsize.
  set (d := Z.pos (Pos.size p)) in *.
  assert (Hbound : 0 <= Z.pos mz < 2 ^ 53).
  { split; [lia|]. rewrite Hmz.
    destruct (Z.le_gt_cases 53 d).
    - replace (0 - Z.min 0 (Z.max (d + 0 - 53) (-1074))) with 0 by lia.
      rewrite Z.pow_0_r. lia.
    - replace (0 - Z.min 0 (Z.max (d + 0 - 53) (-1074))) with (53 - d) by lia.
      replace (2 ^ 53) with (2 ^ d * 2 ^ (53 - d))
        by (rewrite <- Z.pow_add_r by lia; f_equal; lia).
      apply Z.mul_lt_mono_pos_r; [apply Z.pow_pos_nonneg; lia | assumption]. }
  destruct (binary_round_aux_spec false (Z.pos mz) ez loc_Exact 53 0 Hbound ltac:(lia))
    as [H|[[_ H]|(m & e & H & Hm & He)]].
  - (* a positive mantissa below 2^53 is not shifted away *)
    exfalso. revert H. unfold binary_round_aux.
    pose proof (shr_fexp_spec (Z.pos mz) ez loc_Exact ltac:(lia)) as [_ He1].
    unfold shr_fexp in *. rewrite fexp_eq in *.
    assert (Hdig : Zdigits2 (Z.pos mz) <= 53) by now apply Zdigits2_bound.
    assert (Hlow : -1074 <= ez) by lia.
    destruct (Z.max (Zdigits2 (Z.pos mz) + ez - 53) (-1074) - ez) as [|q|q] eqn:Hq;
      [|lia|].
    + cbn [shr shr_record_of_loc shr_m loc_of_shr_record round_nearest_even].
      rewrite fexp_eq, Hq.
      cbn [shr shr_record_of_loc shr_m]. destruct (Z.leb ez _); discriminate.
    + cbn [shr shr_record_of_loc shr_m loc_of_shr_record round_nearest_even].
      rewrite fexp_eq, Hq.
      cbn [shr shr_record_of_loc shr_m]. destruct (Z.leb ez _); discriminate.
  - vm_compute in H. discriminate H.
  - exists m, e. repeat split; [exact H | exact Hm | ].
    vm_compute in He. exact He.
Qed.

Lemma five : Js.of_Z 5 = S754_finite false 5629499534213120 (-50).
Proof. reflexivity. Qed.

(** [length * 5] for the length of an array is +0 or a positive number:
    not NaN, not an infinity. *)
Lemma times_five_finite (n : Z) :
  0 <= n < 2 ^ 53 ->
  Js.sign_clear (Js.mul (Js.of_Z n) (Js.of_Z 5)) = true
  /\ Js.is_infinite (Js.mul (Js.of_Z n) (Js.of_Z 5)) = false.
Proof.
  intros Hn. rewrite five.
  destruct (of_Z_small n Hn) as [->|(m & e & -> & Hm & He)]; [split; reflexivity|].
  unfold Js.mul, SFmul. cbn [xorb].
  assert (Hprod : 0 <= Z.pos (m * 5629499534213120) < 2 ^ 107).
  { split; [lia|]. rewrite Pos2Z.inj_mul.
    change (2 ^ 107) with (2 ^ 54 * 2 ^ 53).
    apply Z.mul_lt_mono_nonneg; [lia | exact Hm | lia | reflexivity]. }
  destruct (binary_round_aux_spec false (Z.pos (m * 5629499534213120)) (e + -50)
              loc_Exact 107 (-49) Hprod ltac:(lia))
    as [->|[[_ H]|(m' & e' & -> & _)]]; [split; reflexivity | | split; reflexivity].
  vm_compute in H. discriminate H.
Qed.

Lemma positive_cases (x : Js.number) :
  Js.ltb Js.zero x = true ->
  x = S754_infinity false \/ exists m e, x = S754_finite false m e.
Proof.
  unfold Js.ltb, SFltb, Js.zero.
  destruct x as [s|[|]| |[|] m e]; cbn; try discriminate; eauto.
Qed.

Lemma div_sign_clear (x d : Js.number) :
  Js.ltb Js.zero x = true ->
  Js.sign_clear d = true ->
  Js.is_infinite d = false ->
  Js.sign_clear (Js.div x d) = true.
Proof.
  intros Hx Hd Hfin.
  destruct (positive_cases x Hx) as [->|(m & e & ->)];
    destruct d as [[|]|[|]| |[|] md ed]; try discriminate; try reflexivity.
  unfold Js.div, SFdiv. cbn [xorb].
  destruct (SFdiv_core_binary Js.prec Js.emax (Z.pos m) e (Z.pos md) ed)
    as [[mz ez] lz] eqn:Hcore.
  assert (Hmz : 0 <= mz).
  { unfold SFdiv_core_binary in Hcore.
    match type of Hcore with
    | context [Z.div_eucl ?a ?b] =>
        assert (Ha : 0 <= a)
          by (match goal with
              | |- 0 <= match ?s with _ => _ end =>
                  destruct s; [lia | apply Z.shiftl_nonneg; lia | lia]
              end);
        pose proof (Z.div_pos a b Ha ltac:(lia)) as Hq;
        unfold Z.div in Hq; destruct (Z.div_eucl a b) as [q r]
    end.
    inversion Hcore; subst. exact Hq. }
  destruct (binary_round_aux_sign false mz ez lz Hmz) as [->|[->|(m' & e' & ->)]];
    reflexivity.
Qed.

Lemma mul_sign_clear (x y : Js.number) :
  Js.sign_clear x = true ->
  Js.sign_clear y = true ->
  Js.is_infinite y = false ->
  Js.is_zero y = false ->
  Js.sign_clear (Js.mul x y) = true.
Proof.
  intros Hx Hy Hfin Hnz.
  destruct x as [[|]|[|]| |[|] m e]; try discriminate;
    destruct y as [[|]|[|]| |[|] my ey]; try discriminate; try reflexivity.
  unfold Js.mul, SFmul. cbn [xorb].
  destruct (binary_round_aux_sign false (Z.pos (m * my)) (e + ey) loc_Exact ltac:(lia))
    as [->|[->|(m' & e' & ->)]]; reflexivity.
Qed.

(** *** Sums of numbers that are not negative *)

Lemma add_zero_r (acc : Js.number) (s : bool) :
  Js.sign_clear acc = true -> Js.add acc (S754_zero s) = acc.
Proof.
  destruct acc as [[|]|[|]| |[|] m e]; try discriminate; destruct s; reflexivity.
Qed.

Lemma add_sign_clear (acc x : Js.number) :
  Js.sign_clear acc = true ->
  Js.sign_clear x = true ->
  Js.sign_clear (Js.add acc x) = true.
Proof.
  intros Hacc Hx.
  destruct acc as [[|]|[|]| |[|] m e]; try discriminate;
    destruct x as [[|]|[|]| |[|] mx ex]; try discriminate; try reflexivity.
  unfold Js.add, SFadd, cond_Zopp, binary_normalize.
  cbn [Z.add].
  match goal with
  | |- context [binary_round _ _ false ?p ?z] =>
      destruct (binary_round_sign false p z) as [->|[->|(m' & e' & ->)]]
  end; reflexivity.
Qed.

End NumberFacts.

(** ** The product route: the review summary *)

Section ReviewSummary.

Import ProductRoute.

Lemma toFixed_2 (x : Js.number) : exists s, Js.toFixed x 2 = Some s.
Proof.
  unfold Js.toFixed. change ((2 <? 0) || (100 <? 2)) with false. cbv iota.
  destruct x as [s|s| |s m e]; eauto.
  destruct (Js.fraction m e) as [num den].
  destruct (10 ^ 21 * den <=? num); eauto.
Qed.

Lemma average_of_cases (sumKey : Js.value) (length : nat) :
  (Js.gt sumKey (Js.Number Js.zero) = false
   /\ average_of sumKey length = Js.Returned (Js.Number Js.zero))
  \/ (Js.gt sumKey (Js.Number Js.zero) = true
      /\ exists s, Js.toFixed (scaled_average sumKey length) 2 = Some s
                   /\ average_of sumKey length = Js.Returned (Js.Str s)).
Proof.
  unfold average_of. destruct (Js.gt sumKey (Js.Number Js.zero)); [right | now left].
  split; [reflexivity|].
  destruct (toFixed_2 (scaled_average sumKey length)) as [s Hs].
  exists s. now rewrite Hs.
Qed.

Lemma gt_zero (sumKey : Js.value) :
  Js.gt sumKey (Js.Number Js.zero) = Js.ltb Js.zero (Js.ToNumber sumKey).
Proof. destruct sumKey; reflexivity. Qed.

(** What is formatted is never NaN. *)
Lemma scaled_average_not_nan (sumKey : Js.value) (length : nat) :
  Z.of_nat length <= max_array_length ->
  Js.gt sumKey (Js.Number Js.zero) = true ->
  Js.is_nan (scaled_average sumKey length) = false.
Proof.
  unfold max_array_length. intros Hlen Hgt. rewrite gt_zero in Hgt.
  apply sign_clear_not_nan. unfold scaled_average, Js.divide. cbn [Js.ToNumber].
  assert (Hrange : 0 <= Z.of_nat length < 2 ^ 53).
  { split; [lia|]. apply Z.le_lt_trans with (1 := Hlen). reflexivity. }
  destruct (times_five_finite _ Hrange) as [Hd Hfin].
  apply mul_sign_clear; try (rewrite five; reflexivity).
  now apply div_sign_clear.
Qed.

Lemma loop_step_truthy (sumKey : Js.value) (r : Review) :
  Js.ToBoolean (rating r) = true -> loop_step sumKey r = Js.plus sumKey (rating r).
Proof. unfold loop_step. now intros ->. Qed.

Lemma loop_step_falsy (sumKey : Js.value) (r : Review) :
  Js.ToBoolean (rating r) = false -> loop_step sumKey r = sumKey.
Proof. unfold loop_step. now intros ->. Qed.

Lemma loop_skips_falsy (reviews : list Review) :
  forall sumKey,
    fold_left loop_step reviews sumKey
    = fold_left loop_step (filter truthy_rating reviews) sumKey.
Proof.
  induction reviews as [|r reviews IH]; intros sumKey; cbn [fold_left filter];
    [reflexivity|].
  unfold truthy_rating at 1.
  destruct (Js.ToBoolean (rating r)) eqn:Ht; cbn [fold_left].
  - apply IH.
  - rewrite loop_step_falsy by exact Ht. apply IH.
Qed.

Lemma sum_loop_skips_falsy (reviews : list Review) :
  sum_loop reviews = sum_loop (filter truthy_rating reviews).
Proof. apply loop_skips_falsy. Qed.

Lemma loop_sums (reviews : list Review) :
  forall acc,
    Forall (fun r => rating_in_range (rating r) = true) reviews ->
    Js.sign_clear acc = true ->
    fold_left loop_step reviews (Js.Number acc)
    = Js.Number (fold_left sum_step reviews acc).
Proof.
  induction reviews as [|r reviews IH]; intros acc Hall Hacc; cbn [fold_left];
    [reflexivity|].
  inversion Hall as [|r' rs Hr Hrest]; subst.
  assert (Hstep : loop_step (Js.Number acc) r = Js.Number (sum_step acc r)
                  /\ Js.sign_clear (sum_step acc r) = true).
  { unfold loop_step, sum_step.
    destruct (rating r) as [| |b|x|s]; try discriminate; cbn [Js.ToBoolean];
      try (split; [reflexivity | exact Hacc]).
    destruct x as [s|[|]| |[|] m e]; try discriminate;
      cbn [Js.is_zero Js.is_nan orb negb].
    - rewrite add_zero_r by exact Hacc. now split.
    - split; [reflexivity | now apply add_sign_clear].
    - split; [reflexivity | now apply add_sign_clear]. }
  destruct Hstep as [-> Hclear]. now apply IH.
Qed.

Lemma sum_loop_rating_sum (reviews : list Review) :
  Forall (fun r => rating_in_range (rating r) = true) reviews ->
  sum_loop reviews = Js.Number (rating_sum reviews).
Proof.
  intros Hall. apply (loop_sums reviews Js.zero Hall). reflexivity.
Qed.

(** C1.  [getProductReviews] returns the reviews as they came, their
    number as [totalReviews], and an [averageRating].  For reviews whose
    rating is a number that is not negative, or is missing, this
    [averageRating] is: when the sum of the ratings is above zero, the string
    [toFixed(2)] gives for [(sum / (count * 5)) * 5]; when there is no review
    or the sum is zero, the number 0. *)
Theorem getProductReviews_summary (myData : list Review) :
  exists average : Js.value,
    getProductReviews myData
    = Js.Returned {| reviews := myData;
                     totalReviews := List.length myData;
                     averageRating := average |}
    /\ (Forall (fun r => rating_in_range (rating r) = true) myData ->
        (Js.ltb Js.zero (rating_sum myData) = true ->
         exists s,
           Js.toFixed
             (Js.mul
                (Js.div (rating_sum myData)
                        (Js.mul (Js.of_Z (Z.of_nat (List.length myData))) (Js.of_Z 5)))
                (Js.of_Z 5)) 2 = Some s
           /\ average = Js.Str s)
        /\ (myData = [] \/ Js.is_zero (rating_sum myData) = true ->
            average = Js.Number Js.zero)).
Proof.
  unfold getProductReviews, getAverageRating.
  assert (Hzero : myData = [] \/ Js.is_zero (rating_sum myData) = true ->
                  Js.ltb Js.zero (rating_sum myData) = false).
  { intros [->|Hz]; [reflexivity|].
    destruct (rating_sum myData); try discriminate. reflexivity. }
  destruct (average_of_cases (sum_loop myData) (List.length myData))
    as [[Hgt ->]|[Hgt (s & Hs & ->)]]; rewrite gt_zero in Hgt.
  - exists (Js.Number Js.zero). split; [reflexivity|].
    intros Hall. rewrite (sum_loop_rating_sum myData Hall) in Hgt.
    cbn [Js.ToNumber] in Hgt. split; [congruence | reflexivity].
  - exists (Js.Str s). split; [reflexivity|].
    intros Hall. rewrite (sum_loop_rating_sum myData Hall) in Hgt, Hs.
    cbn [Js.ToNumber] in Hgt. split.
    + intros _. exists s. split; [exact Hs | reflexivity].
    + intros Hz. apply Hzero in Hz. congruence.
Qed.

Lemma getProductReviews_summary_witness :
  let review n := {| product_external_id := Js.Str "p1";
                     rating := Js.Number (Js.of_Z n) |} in
  Forall (fun r => rating_in_range (rating r) = true) [review 5; review 4; review 3]
  /\ getProductReviews [review 5; review 4; review 3]
     = Js.Returned {| reviews := [review 5; review 4; review 3];
                      totalReviews := 3;
                      averageRating := Js.Str "4.00" |}.
Proof.
  intros review.
  assert (Hall : Forall (fun r => rating_in_range (rating r) = true)
                        [review 5; review 4; review 3])
    by (repeat constructor).
  split; [exact Hall|].
  destruct (getProductReviews_summary [review 5; review 4; review 3])
    as (average & Heq & Hsum).
  destruct (Hsum Hall) as (Hpos & _).
  destruct (Hpos eq_refl) as (s & Hs & ->).
  vm_compute in Hs. injection Hs as <-. exact Heq.
Defined.

(** C10.  On every array of reviews [getAverageRating] returns, and does
    not throw.  A review whose rating is falsy (missing, null, false, zero,
    NaN, the empty string) leaves the sum as it is and counts in the length
    that divides it: the result is that of the sum over the reviews with a
    truthy rating and of the length of the whole array.  The result is the
    number 0 or the string [toFixed(2)] gives for a number which, the array
    being no longer than an array can be, is not NaN; it is never NaN.  When
    no review has a truthy rating it is the number 0. *)
Theorem getAverageRating_total (reviews : list Review) :
  (exists v, getAverageRating reviews = Js.Returned v
     /\ v <> Js.Number Js.nan
     /\ (v = Js.Number Js.zero
         \/ exists s,
              v = Js.Str s
              /\ Js.toFixed (scaled_average (sum_loop reviews) (List.length reviews)) 2
                 = Some s
              /\ (Z.of_nat (List.length reviews) <= max_array_length ->
                  Js.is_nan (scaled_average (sum_loop reviews) (List.length reviews))
                  = false)))
  /\ sum_loop reviews = sum_loop (filter truthy_rating reviews)
  /\ getAverageRating reviews
     = average_of (sum_loop (filter truthy_rating reviews)) (List.length reviews)
  /\ (Forall (fun r => truthy_rating r = false) reviews ->
      getAverageRating reviews = Js.Returned (Js.Number Js.zero)).
Proof.
  unfold getAverageRating. repeat split.
  - destruct (average_of_cases (sum_loop reviews) (List.length reviews))
      as [[Hgt ->]|[Hgt (s & Hs & ->)]].
    + exists (Js.Number Js.zero). repeat split; [discriminate | now left].
    + exists (Js.Str s). repeat split; [discriminate|]. right.
      exists s. repeat split; [exact Hs|].
      intros Hlen. now apply scaled_average_not_nan.
  - apply sum_loop_skips_falsy.
  - now rewrite <- sum_loop_skips_falsy.
  - intros Hfalsy. rewrite sum_loop_skips_falsy.
    replace (filter truthy_rating reviews) with (@nil Review); [reflexivity|].
    symmetry. induction Hfalsy as [|r rs Hr _ IH]; [reflexivity|].
    cbn [filter]. now rewrite Hr.
Qed.

Lemma getAverageRating_total_witness :
  let review v := {| product_external_id := Js.Str "p1"; rating := v |} in
  let reviews := [review (Js.Number (Js.of_Z 5)); review Js.Undefined;
                  review (Js.Number Js.zero)] in
  getAverageRating reviews = Js.Returned (Js.Str "1.67")
  /\ getAverageRating [review Js.Undefined; review (Js.Number Js.zero)]
     = Js.Returned (Js.Number Js.zero).
Proof.
  intros review reviews. split.
  - destruct (getAverageRating_total reviews) as (_ & _ & -> & _). reflexivity.
  - apply (getAverageRating_total [review Js.Undefined; review (Js.Number Js.zero)]).
    repeat constructor.
Defined.

End ReviewSummary.

(** * Further properties *)

(** ** The collection route *)

Section CollectionMoreFacts.

Import CollectionRoute CollectionMore.

Lemma scanned_clauses (k v : string) :
  scanned k = false -> clauses_of (k, v) = [] /\ descriptors_of (k, v) = [].
Proof.
  unfold scanned, clauses_of, descriptors_of, loop_body. intros Hs.
  apply orb_false_iff in Hs. destruct Hs as [Hs Hv].
  apply orb_false_iff in Hs. destruct Hs as [Ha Hk].
  now rewrite Ha, Hk, Hv.
Qed.

Lemma one_each (entry : string * string) :
  (clauses_of entry = [] /\ descriptors_of entry = [])
  \/ exists f d, clauses_of entry = [f] /\ descriptors_of entry = [d]
       /\ key (urlParam d) = fst entry /\ value (urlParam d) = Some (snd entry).
Proof.
  destruct entry as [k v].
  unfold clauses_of, descriptors_of, loop_body, Js.push.
  destruct (String.eqb_spec available k) as [<-|_];
    [right; do 2 eexists; repeat split; reflexivity|].
  destruct (Array_includes knownFilters k);
    [right; do 2 eexists; repeat split; reflexivity|].
  destruct (Js.includes k variantOption);
    [right; do 2 eexists; repeat split; reflexivity | now left].
Qed.

Lemma get_in (name v : string) (searchParams : URLSearchParams) :
  get name searchParams = Some v -> In (name, v) searchParams.
Proof.
  induction searchParams as [|[k w] rest IH]; cbn [get]; [discriminate|].
  destruct (String.eqb_spec k name) as [->|_].
  - intros [= ->]. now left.
  - intros Hget. right. now apply IH.
Qed.

(** X1.  A parameter whose name the loop has no branch for, and which is
    not a price parameter, can be taken out of the query string: the filters
    and the applied filters stay what they were.  The loop has a branch for a
    name exactly when the parameter gives a clause. *)
Theorem unrecognised_parameter_ignored (k v : string) (l1 l2 : URLSearchParams) :
  scanned k = false ->
  price_key k = false ->
  filters (loader (l1 ++ (k, v) :: l2)) = filters (loader (l1 ++ l2))
  /\ appliedFilters (loader (l1 ++ (k, v) :: l2)) = appliedFilters (loader (l1 ++ l2))
  /\ (forall k' v', scanned k' = true <-> clauses_of (k', v') <> []).
Proof.
  intros Hs Hp. destruct (scanned_clauses k v Hs) as [Hc Hd].
  apply orb_false_iff in Hp. destruct Hp as [Hmin Hmax].
  assert (Hget : forall name, String.eqb k name = false ->
            get name (l1 ++ (k, v) :: l2) = get name (l1 ++ l2)).
  { intros name Hne. rewrite !get_app. cbn [get]. now rewrite Hne. }
  rewrite !loader_filters, !loader_appliedFilters, !flat_map_app.
  cbn [flat_map]. rewrite Hc, Hd, !(Hget _ Hmin), !(Hget _ Hmax).
  repeat split; try reflexivity.
  - intros Hk' Hnil.
    unfold scanned in Hk'. unfold clauses_of, loop_body, Js.push in Hnil.
    destruct (String.eqb available k'); [discriminate Hnil|].
    destruct (Array_includes knownFilters k'); [discriminate Hnil|].
    destruct (Js.includes k' variantOption); [discriminate Hnil | discriminate Hk'].
  - intros Hne. destruct (scanned k') eqn:Hk'; [reflexivity|].
    destruct (scanned_clauses k' v' Hk'). contradiction.
Qed.

Lemma unrecognised_parameter_ignored_witness :
  filters (loader [("productType", "Mat"); ("page", "2"); ("available", "true")])
  = filters (loader [("productType", "Mat"); ("available", "true")]).
Proof.
  apply (unrecognised_parameter_ignored "page" "2" [("productType", "Mat")]
           [("available", "true")]); reflexivity.
Defined.

(** X2.  There are as many applied filters as filters, and one more when
    both [minPrice] and [maxPrice] are present: the price clause is one,
    its descriptors are two. *)
Theorem descriptors_and_clauses (searchParams : URLSearchParams) :
  List.length (appliedFilters (loader searchParams))
  = (List.length (filters (loader searchParams))
     + (if has "minPrice" searchParams && has "maxPrice" searchParams then 1 else 0))%nat.
Proof.
  rewrite loader_filters, loader_appliedFilters, !length_app, !has_get.
  assert (Hscan : List.length (flat_map descriptors_of searchParams)
                  = List.length (flat_map clauses_of searchParams)).
  { induction searchParams as [|entry rest IH]; [reflexivity|].
    cbn [flat_map]. rewrite !length_app, IH.
    destruct (one_each entry) as [[-> ->]|(f & d & -> & -> & _)]; reflexivity. }
  rewrite Hscan.
  destruct (get "minPrice" searchParams), (get "maxPrice" searchParams); cbn; lia.
Qed.

(** X3.  Every applied filter carries the name and the value of a pair
    that is in the query string, so the parameter it stands for can be found
    there. *)
Theorem applied_filters_from_request (searchParams : URLSearchParams) :
  Forall (from_request searchParams) (appliedFilters (loader searchParams)).
Proof.
  rewrite loader_appliedFilters. apply Forall_app. split.
  - apply Forall_forall. intros d Hd.
    apply in_flat_map in Hd. destruct Hd as ([k v] & Hentry & Hd).
    destruct (one_each (k, v)) as [[_ Hnil]|(f & d' & _ & Hone & Hkey & Hval)].
    + rewrite Hnil in Hd. contradiction.
    + rewrite Hone in Hd. destruct Hd as [<-|[]].
      exists v. cbn [fst snd] in *. rewrite Hkey. now split.
  - unfold price_descriptors, price_descriptor.
    apply Forall_app. split.
    + destruct (get "minPrice" searchParams) as [t|] eqn:Hget; constructor; [|constructor].
      exists t. split; [reflexivity | now apply get_in].
    + destruct (get "maxPrice" searchParams) as [t|] eqn:Hget; constructor; [|constructor].
      exists t. split; [reflexivity | now apply get_in].
Qed.

(** X4.  Only the first [minPrice] and the first [maxPrice] count: a later
    pair of the same name can be taken out of the query string and the loader
    computes the same. *)
Theorem later_price_ignored (k v : string) (l1 l2 : URLSearchParams) :
  price_key k = true ->
  has k l1 = true ->
  loader (l1 ++ (k, v) :: l2) = loader (l1 ++ l2).
Proof.
  intros Hk Hhas. rewrite has_get in Hhas.
  assert (Hget : forall name,
            get name (l1 ++ (k, v) :: l2) = get name (l1 ++ l2)).
  { intros name. rewrite !get_app. cbn [get].
    destruct (String.eqb_spec k name) as [<-|_]; [|reflexivity].
    destruct (get k l1); [reflexivity | discriminate]. }
  assert (Hskip : clauses_of (k, v) = [] /\ descriptors_of (k, v) = []).
  { apply orb_true_iff in Hk.
    destruct Hk as [Hk|Hk]; apply String.eqb_eq in Hk; subst k; split; reflexivity. }
  destruct Hskip as [Hc Hd].
  rewrite !loader_fields, !Hget, !flat_map_app. cbn [flat_map].
  now rewrite Hc, Hd.
Qed.

Lemma later_price_ignored_witness :
  loader [("minPrice", "10"); ("productType", "Mat"); ("minPrice", "99")]
  = loader [("minPrice", "10"); ("productType", "Mat")].
Proof.
  apply (later_price_ignored "minPrice" "99" [("minPrice", "10"); ("productType", "Mat")] []);
    reflexivity.
Defined.

(** X5.  The sort is by relevance exactly for the tokens outside the five
    of the switch, and two different tokens of the five never give the same
    sort. *)
Theorem sort_tokens_distinct :
  (forall token,
     sortKey (getSortValuesFromParam (Some token)) = RELEVANCE <-> ~ In token sort_tokens)
  /\ (forall t1 t2,
        In t1 sort_tokens -> In t2 sort_tokens ->
        getSortValuesFromParam (Some t1) = getSortValuesFromParam (Some t2) ->
        t1 = t2).
Proof.
  split.
  - intros token. split.
    + intros Hrel Hin. cbn in Hin.
      repeat (destruct Hin as [<-|Hin]; [discriminate Hrel|]). exact Hin.
    + intros Hnot. unfold getSortValuesFromParam.
      repeat match goal with
      | |- context [String.eqb token ?t] =>
          destruct (String.eqb_spec token t) as [->|_];
          [exfalso; apply Hnot; cbn; tauto|]
      end.
      reflexivity.
  - intros t1 t2 H1 H2. cbn in H1, H2.
    repeat (destruct H1 as [<-|H1]);
      repeat (destruct H2 as [<-|H2]);
      try contradiction; try reflexivity; intros Heq; discriminate Heq.
Qed.

End CollectionMoreFacts.

(** ** The product route: more on the pages of the review service *)

Section PagesMore.

Import ProductRoute ProductMore.

Variable source : ReviewSource.
Variable externalID : Js.value.



(** X8.  Without an empty page and without a failure [getReviewsWithID]
    does not come to an end: whatever the fuel, it is used up, one page
    requested for each unit of it. *)
Theorem getReviewsWithID_endless (fuel : nat) :
  forall (page : Z) (products : list Review),
    (forall i : nat, full_page source (page + Z.of_nat i)) ->
    getReviewsWithID fuel source externalID page products
    = (page_numbers page fuel, Js.OutOfFuel).
Proof.
  induction fuel as [|fuel IH]; intros page products Hfull; cbn [getReviewsWithID];
    [reflexivity|].
  destruct (Hfull O) as (l & Hl & Hne). rewrite Z.add_0_r in Hl. rewrite Hl.
  destruct l as [|r l]; [congruence|]. cbn [List.length Nat.eqb].
  rewrite IH; [reflexivity|].
  intros i. replace (page + 1 + Z.of_nat i) with (page + Z.of_nat (S i)) by lia.
  apply Hfull.
Qed.

(** X9.  A call is the call [j] pages further on, begun with what the [j]
    pages have added: after [j] pages with reviews the pages requested are
    those [j] followed by the ones of the later call, and the outcome is that
    of the later call. *)
Theorem getReviewsWithID_resumes (j : nat) :
  forall (page : Z) (products : list Review) (fuel : nat),
    (forall i, (i < j)%nat -> full_page source (page + Z.of_nat i)) ->
    getReviewsWithID (j + fuel) source externalID page products
    = (page_numbers page j
       ++ fst (getReviewsWithID fuel source externalID (page + Z.of_nat j)
                 (products ++ filter (matches externalID) (pages source page j))),
       snd (getReviewsWithID fuel source externalID (page + Z.of_nat j)
              (products ++ filter (matches externalID) (pages source page j)))).
Proof.
  induction j as [|j IH]; intros page products fuel Hfull.
  - cbn [Nat.add page_numbers pages filter app]. rewrite Z.add_0_r, app_nil_r.
    now destruct (getReviewsWithID fuel source externalID page products).
  - cbn [Nat.add getReviewsWithID].
    destruct (Hfull O ltac:(lia)) as (l & Hl & Hne).
    rewrite Z.add_0_r in Hl. rewrite Hl.
    destruct l as [|r l]; [congruence|]. cbn [List.length Nat.eqb].
    rewrite (IH (page + 1)).
    + cbn [page_numbers pages]. rewrite Hl, filter_app, app_assoc.
      replace (page + 1 + Z.of_nat j) with (page + Z.of_nat (S j)) by lia.
      reflexivity.
    + intros i Hi.
      replace (page + 1 + Z.of_nat i) with (page + Z.of_nat (S i)) by lia.
      apply Hfull. lia.
Qed.

End PagesMore.



Lemma getReviewsWithID_endless_witness :
  let r1 := {| ProductRoute.product_external_id := Js.Str "p1";
               ProductRoute.rating := Js.Number (Js.of_Z 5) |} in
  ProductRoute.getReviewsWithID 3 (fun _ => Some [r1]) (Js.Str "p1") 1 []
  = ([1; 2; 3], Js.OutOfFuel).
Proof.
  intros r1.
  apply (getReviewsWithID_endless (fun _ => Some [r1]) (Js.Str "p1") 3 1 []).
  intros i. exists [r1]. split; [reflexivity | discriminate].
Defined.

Lemma getReviewsWithID_resumes_witness :
  let r1 := {| ProductRoute.product_external_id := Js.Str "p1";
               ProductRoute.rating := Js.Number (Js.of_Z 5) |} in
  let pager := fun page => if page =? 1 then Some [r1] else Some [] in
  ProductRoute.getReviewsWithID 3 pager (Js.Str "p1") 1 []
  = ([1] ++ fst (ProductRoute.getReviewsWithID 2 pager (Js.Str "p1") 2 [r1]),
     snd (ProductRoute.getReviewsWithID 2 pager (Js.Str "p1") 2 [r1])).
Proof.
  intros r1 pager.
  apply (getReviewsWithID_resumes pager (Js.Str "p1") 1 1 [] 2).
  intros [|i] Hi; [|lia]. exists [r1]. split; [reflexivity | discriminate].
Defined.

(** ** The product route: the products of the review service *)

Section JudgeProducts.

Import ProductPage.

Variable source : ProductSource.
Variable externalID : Js.value.

(** X10.  [getProductsWithID] goes through the pages as
    [getReviewsWithID] does: when the [k] pages from [page] on have products
    and the next page is empty, then with fuel for [k + 1] calls it requests
    these [k + 1] pages in order and returns the products it was given
    followed by the products of the [k] pages whose [external_id] is strictly
    equal to [externalID], in order. *)
Theorem getProductsWithID_collects (k : nat) :
  forall (page : Z) (products : list JudgeProduct) (fuel : nat),
    (forall i, (i < k)%nat ->
       exists l, source (page + Z.of_nat i) = Some l /\ l <> []) ->
    source (page + Z.of_nat k) = Some [] ->
    (k < fuel)%nat ->
    getProductsWithID fuel source externalID page products
    = (ProductRoute.page_numbers page (S k),
       Js.Returned
         (products ++ filter (judge_matches externalID) (judge_pages source page k))).
Proof.
  induction k as [|k IH]; intros page products fuel Hfull Hempty Hfuel;
    (destruct fuel as [|fuel]; [lia|]); cbn [getProductsWithID].
  - rewrite Z.add_0_r in Hempty. rewrite Hempty. cbn.
    now rewrite app_nil_r.
  - destruct (Hfull O ltac:(lia)) as (l & Hl & Hne).
    rewrite Z.add_0_r in Hl. rewrite Hl.
    destruct l as [|r l]; [congruence|]. cbn [List.length Nat.eqb].
    rewrite (IH (page + 1) _ fuel).
    + cbn [ProductRoute.page_numbers judge_pages]. rewrite Hl, filter_app, app_assoc.
      reflexivity.
    + intros i Hi. destruct (Hfull (S i) ltac:(lia)) as (l' & Hl' & Hne').
      exists l'. split; [|exact Hne'].
      rewrite <- Hl'. f_equal. lia.
    + rewrite <- Hempty. f_equal. lia.
    + lia.
Qed.

End JudgeProducts.

Lemma getProductsWithID_collects_witness :
  let p1 := {| ProductPage.external_id := Js.Number (Js.of_Z 7) |} in
  let p2 := {| ProductPage.external_id := Js.Number (Js.of_Z 8) |} in
  let pager := fun page => if page =? 1 then Some [p1; p2] else Some [] in
  ProductPage.getProductsWithID 2 pager (Js.Number (Js.of_Z 8)) 1 []
  = ([1; 2], Js.Returned [p2]).
Proof.
  intros p1 p2 pager.
  apply (getProductsWithID_collects pager (Js.Number (Js.of_Z 8)) 1 1 [] 2).
  - intros [|i] Hi; [|lia]. exists [p1; p2]. split; [reflexivity | discriminate].
  - reflexivity.
  - lia.
Defined.

(** ** The product route: what is recommended *)

Section RecommendedMore.

Import ProductRoute.

Lemma getRecommendedProducts_unfolded (response : Recommendations) (productId : string) :
  getRecommendedProducts (Some response) productId
  = Js.Returned
      (if has_id productId (dedup_by_id [] (additional_nodes response))
       then remove_id productId (dedup_by_id [] (additional_nodes response))
       else removelast (dedup_by_id [] (additional_nodes response))).
Proof.
  unfold getRecommendedProducts. cbn [recommended additional_nodes app].
  f_equal.
  pose proof (first_occurrences (additional_nodes response) [] []) as Hdedup.
  cbn [app List.length Z.of_nat] in Hdedup.
  unfold same_id in Hdedup. rewrite Hdedup by reflexivity.
  destruct (has_id productId (dedup_by_id [] (additional_nodes response))) eqn:Hhas.
  - now apply splice_found.
  - rewrite findIndex_map, findIndex_absent by exact Hhas. apply splice_last.
Qed.

Lemma dedup_incl (l : list Product) :
  forall seen p, In p (dedup_by_id seen l) -> In p l.
Proof.
  induction l as [|q l IH]; intros seen p; cbn [dedup_by_id]; [tauto|].
  destruct (existsb (String.eqb (id q)) seen); cbn [In]; intros Hin.
  - right. eapply IH, Hin.
  - destruct Hin as [->|Hin]; [now left | right; eapply IH, Hin].
Qed.

Lemma remove_id_incl (productId : string) (l : list Product) :
  forall p, In p (remove_id productId l) -> In p l.
Proof.
  induction l as [|q l IH]; intros p; cbn [remove_id]; [tauto|].
  destruct (String.eqb (id q) productId); cbn [In]; intros Hin; [now right|].
  destruct Hin as [->|Hin]; [now left | right; now apply IH].
Qed.

Lemma removelast_incl {A : Type} (l : list A) :
  forall p, In p (removelast l) -> In p l.
Proof.
  induction l as [|q l IH]; intros p; cbn [removelast]; [tauto|].
  destruct l as [|q' l]; [intros []|].
  intros [->|Hin]; [now left | right; now apply IH].
Qed.

Lemma remove_id_ids (productId : string) (l : list Product) :
  NoDup (map id l) ->
  forall s, In s (map id (remove_id productId l))
            <-> In s (map id l) /\ s <> productId.
Proof.
  induction l as [|q l IH]; cbn [map remove_id In]; intros Hnd s; [tauto|].
  inversion Hnd as [|x xs Hnotin Hnd']; subst.
  destruct (String.eqb_spec (id q) productId) as [Heq|Hne]; cbn [map In].
  - split.
    + intros Hin. split; [now right|]. intros ->. rewrite <- Heq in Hin. contradiction.
    + intros [[Hq|Hin] Hs]; [congruence | exact Hin].
  - rewrite (IH Hnd' s). split.
    + intros [Hq|[Hin Hs]]; [split; [now left | congruence] | split; [now right | exact Hs]].
    + intros [[Hq|Hin] Hs]; [now left | right; now split].
Qed.

Lemma remove_id_nodup (productId : string) (l : list Product) :
  NoDup (map id l) -> NoDup (map id (remove_id productId l)).
Proof.
  induction l as [|q l IH]; cbn [map remove_id]; intros Hnd; [constructor|].
  inversion Hnd as [|x xs Hnotin Hnd']; subst.
  destruct (String.eqb (id q) productId); [exact Hnd'|].
  cbn [map]. constructor; [|now apply IH].
  intros Hin. apply Hnotin.
  apply in_map_iff in Hin. destruct Hin as (p & Hp & Hin).
  apply in_map_iff. exists p. split; [exact Hp | now apply remove_id_incl in Hin].
Qed.

Lemma removelast_nodup (l : list Product) :
  NoDup (map id l) -> NoDup (map id (removelast l)).
Proof.
  induction l as [|q l IH]; cbn [map removelast]; intros Hnd; [constructor|].
  inversion Hnd as [|x xs Hnotin Hnd']; subst.
  destruct l as [|q' l]; [constructor|].
  cbn [map]. constructor; [|now apply IH].
  intros Hin. apply Hnotin.
  apply in_map_iff in Hin. destruct Hin as (p & Hp & Hin).
  apply in_map_iff. exists p. split; [exact Hp | now apply removelast_incl in Hin].
Qed.

Lemma remove_id_length (productId : string) (l : list Product) :
  has_id productId l = true ->
  List.length (remove_id productId l) = Nat.pred (List.length l).
Proof.
  unfold has_id.
  induction l as [|q l IH]; cbn [existsb remove_id List.length]; [discriminate|].
  destruct (String.eqb (id q) productId); cbn [orb]; [reflexivity|].
  intros Hl. cbn [List.length]. rewrite (IH Hl).
  destruct l; [discriminate Hl | reflexivity].
Qed.

Lemma removelast_length {A : Type} (l : list A) :
  List.length (removelast l) = Nat.pred (List.length l).
Proof.
  induction l as [|q l IH]; [reflexivity|]. cbn [removelast].
  destruct l as [|q' l]; [reflexivity|].
  cbn [List.length] in *. now rewrite IH.
Qed.

(** X11.  What [getRecommendedProducts] returns for a response: products
    of [additional], no two of the same id, one fewer than [additional] has
    ids (none when it has none).  When the product of the page is among them,
    it is the one left out: its id is not in the result and every other id of
    [additional] is. *)
Theorem recommended_products_invariants (response : Recommendations) (productId : string) :
  exists l,
    getRecommendedProducts (Some response) productId = Js.Returned l
    /\ NoDup (map id l)
    /\ (forall p, In p l -> In p (additional_nodes response))
    /\ List.length l
       = Nat.pred (List.length (dedup_by_id [] (additional_nodes response)))
    /\ (In productId (map id (additional_nodes response)) ->
        forall s, In s (map id l)
                  <-> In s (map id (additional_nodes response)) /\ s <> productId).
Proof.
  rewrite getRecommendedProducts_unfolded.
  set (merged := dedup_by_id [] (additional_nodes response)).
  assert (Hnd : NoDup (map id merged)) by apply dedup_nodup.
  assert (Hids : forall s, In s (map id merged)
                           <-> In s (map id (additional_nodes response))).
  { intros s. unfold merged. rewrite dedup_ids. cbn [In]. tauto. }
  destruct (has_id productId merged) eqn:Hhas.
  - exists (remove_id productId merged). split; [reflexivity|].
    split; [now apply remove_id_nodup|]. split; [|split].
    + intros p Hin. apply remove_id_incl in Hin. now apply dedup_incl in Hin.
    + now apply remove_id_length.
    + intros _ s. rewrite (remove_id_ids productId merged Hnd s), Hids. tauto.
  - exists (removelast merged). split; [reflexivity|].
    split; [now apply removelast_nodup|]. split; [|split].
    + intros p Hin. apply removelast_incl in Hin. now apply dedup_incl in Hin.
    + apply removelast_length.
    + intros Hin. apply Hids, has_id_spec in Hin. congruence.
Qed.

End RecommendedMore.

(** ** [FeaturedArticles] *)

Section FeaturedArticlesFacts.

Import Components.

Lemma children_rendered (l : list Article) :
  List.length (filter has_image l) = List.length (rendered (map child_of l))
  /\ map key (rendered (map child_of l)) = map id (filter has_image l)
  /\ map to (rendered (map child_of l))
     = map (fun a => "/articles/" ++ handle a)%string (filter has_image l).
Proof.
  induction l as [|a l (IH1 & IH2 & IH3)]; [repeat split|].
  change (filter has_image (a :: l))
    with (if has_image a then a :: filter has_image l else filter has_image l).
  change (rendered (map child_of (a :: l)))
    with (match child_of a with Some c => [c] | None => [] end
          ++ rendered (map child_of l)).
  destruct (image a) as [picture|] eqn:Himg.
  - assert (Hh : has_image a = true) by (unfold has_image; now rewrite Himg).
    assert (Hc : child_of a
                 = Some {| key := id a;
                           to := ("/articles/" ++ handle a)%string;
                           alt := ("Image of " ++ title a)%string;
                           data := picture;
                           heading := title a |})
      by (unfold child_of; now rewrite Himg).
    rewrite Hh, Hc. cbn [app map List.length key to].
    now rewrite IH1, IH2, IH3.
  - assert (Hh : has_image a = false) by (unfold has_image; now rewrite Himg).
    assert (Hc : child_of a = None) by (unfold child_of; now rewrite Himg).
    rewrite Hh, Hc. cbn [app]. repeat split; assumption.
Qed.

(** X12.  [FeaturedArticles] renders nothing exactly when there are no
    articles.  Otherwise the grid has one child for each article, null for
    an article without an image, and the [items] it is told of are as many as
    the links it holds: those of the articles with an image, in their order,
    each to [/articles/] followed by the handle. *)
Theorem FeaturedArticles_items (articles : option (list Article))
    (section_title : option string) :
  (FeaturedArticles articles section_title = None
   <-> articles = None \/ articles = Some [])
  /\ (forall l s,
        articles = Some l ->
        FeaturedArticles articles section_title = Some s ->
        List.length (children s) = List.length l
        /\ items s = List.length (rendered (children s))
        /\ map key (rendered (children s)) = map id (filter has_image l)
        /\ map to (rendered (children s))
           = map (fun a => "/articles/" ++ handle a)%string (filter has_image l)).
Proof.
  split.
  - destruct articles as [[|a l]|]; cbn; split; intros H; auto; try discriminate.
    destruct H as [H|H]; discriminate H.
  - intros l s -> Hs. unfold FeaturedArticles in Hs.
    destruct l as [|a l]; [discriminate Hs|].
    cbn [List.length Nat.ltb Nat.leb] in Hs. injection Hs as <-.
    change (children _) with (map child_of (a :: l)).
    change (items _) with (List.length (filter has_image (a :: l))).
    destruct (children_rendered (a :: l)) as (H1 & H2 & H3).
    rewrite length_map. repeat split; assumption.
Qed.

End FeaturedArticlesFacts.

(** ** The product page: [Product] *)

Section ProductFacts.

Import ProductPage.

Lemma append_assoc (a b c : string) : ((a ++ b) ++ c = a ++ (b ++ c))%string.
Proof. induction a as [|x a IH]; cbn; [reflexivity | now rewrite IH]. Qed.

Lemma digit_runs_skip (pre : string) :
  forall rest,
    no_digit pre = true ->
    JsMore.digit_runs (pre ++ rest) "" = JsMore.digit_runs rest "".
Proof.
  unfold no_digit.
  induction pre as [|c pre IH]; intros rest; cbn; [reflexivity|].
  destruct (JsMore.is_digit c); cbn; [discriminate|]. apply IH.
Qed.

Lemma digit_runs_run (run : string) :
  forall rest current,
    all_digits run = true ->
    JsMore.digit_runs (run ++ rest) current = JsMore.digit_runs rest (current ++ run).
Proof.
  unfold all_digits.
  induction run as [|c run IH]; intros rest current; cbn.
  - intros _. f_equal. clear. induction current as [|x current IH]; cbn; congruence.
  - destruct (JsMore.is_digit c); cbn; [|discriminate].
    intros Hrun. rewrite (IH rest _ Hrun). now rewrite append_assoc.
Qed.

Lemma digit_runs_stop (post current : string) :
  stops post = true ->
  current <> ""%string ->
  exists more, JsMore.digit_runs post current = current :: more.
Proof.
  intros Hstop Hne.
  assert (Hflush : JsMore.flush current = [current]).
  { unfold JsMore.flush. destruct (String.eqb_spec current ""); [contradiction | reflexivity]. }
  destruct post as [|c post]; cbn in *.
  - exists []. exact Hflush.
  - destruct (JsMore.is_digit c); [discriminate|]. rewrite Hflush.
    cbn [app]. eexists. reflexivity.
Qed.

Lemma digit_runs_none (s : string) :
  forall current,
    JsMore.digit_runs s current = [] <-> current = ""%string /\ no_digit s = true.
Proof.
  unfold no_digit.
  induction s as [|c s IH]; intros current; cbn.
  - unfold JsMore.flush. destruct (String.eqb_spec current "") as [->|Hne].
    + tauto.
    + split; [discriminate | intros [H _]; contradiction].
  - destruct (JsMore.is_digit c); cbn.
    + rewrite IH. split; [|intros [_ H]; discriminate].
      intros [Happ _]. destruct current; discriminate.
    + unfold JsMore.flush. destruct (String.eqb_spec current "") as [->|Hne]; cbn.
      * rewrite IH. tauto.
      * split; [discriminate | intros [H _]; contradiction].
Qed.

(** X13.  [Product] reads the first run of digits of the id: after a text
    without a digit, a run of digits that is not continued is the
    [specialPID].  An id without a digit has no match, and rendering throws,
    in this case only. *)
Theorem specialPID_first_run :
  (forall pre run post,
     no_digit pre = true -> all_digits run = true -> run <> ""%string ->
     stops post = true ->
     specialPID (pre ++ run ++ post) = Js.Returned (Some run))
  /\ (forall id, specialPID id = Js.Threw <-> no_digit id = true)
  /\ (forall id tags, Product_locals id tags = Js.Threw <-> no_digit id = true).
Proof.
  assert (Hthrew : forall id, specialPID id = Js.Threw <-> no_digit id = true).
  { intros id. unfold specialPID, JsMore.match_digits.
    pose proof (digit_runs_none id "") as Hnone.
    destruct (JsMore.digit_runs id "") as [|r rs].
    - split; [intros _; now apply Hnone | reflexivity].
    - split; [discriminate|]. intros Hno.
      assert (H : r :: rs = []) by (apply Hnone; now split). discriminate H. }
  split; [|split; [exact Hthrew|]].
  - intros pre run post Hpre Hrun Hne Hstop.
    unfold specialPID, JsMore.match_digits.
    rewrite digit_runs_skip by exact Hpre.
    rewrite digit_runs_run by exact Hrun. cbn [append].
    destruct (digit_runs_stop post run Hstop Hne) as [more ->]. reflexivity.
  - intros id tags. rewrite <- Hthrew. unfold Product_locals.
    destruct (specialPID id); split; intros H; try discriminate; reflexivity.
Qed.

(** X14.  The shipping message of [Product].  Without a tag that contains
    [shippingStatement] it is [Ships Tomorrow].  Otherwise the first such tag
    decides, whatever comes after it: the message is the text between its first
    colon and its second one (the rest of the tag when there is no second
    colon), and undefined when the tag has no colon. *)
Theorem shippingMessage_first_tag :
  (forall tags,
     Forall (fun tag => Js.includes tag "shippingStatement" = false) tags ->
     shippingMessage tags = Some "Ships Tomorrow"%string)
  /\ (forall before tag after,
        Forall (fun t => Js.includes t "shippingStatement" = false) before ->
        Js.includes tag "shippingStatement" = true ->
        shippingMessage (before ++ tag :: after)
        = option_map CollectionRoute.until_colon (CollectionRoute.after_colon tag)).
Proof.
  split.
  - intros tags Hall. unfold shippingMessage.
    replace (find _ tags) with (@None string); [reflexivity|].
    symmetry. induction Hall as [|t ts Ht _ IH]; [reflexivity|].
    cbn [find]. now rewrite Ht.
  - intros before tag after Hbefore Htag. unfold shippingMessage.
    replace (find _ (before ++ tag :: after)) with (Some tag).
    + assert (Hne : String.eqb tag "" = false).
      { destruct (String.eqb_spec tag "") as [->|]; [discriminate Htag | reflexivity]. }
      cbn [Js.ToBoolean]. rewrite Hne. cbn [negb andb].
      apply split_pieces.
    + symmetry. induction Hbefore as [|t ts Ht _ IH]; cbn [app find].
      * now rewrite Htag.
      * now rewrite Ht.
Qed.

End ProductFacts.

(** ** The product page: the options and their links *)

Section OptionFacts.

Import ProductPage.

Lemma get_set_same (n v : string) (l : list (string * string)) :
  CollectionRoute.get n (JsMore.set n v l) = Some v.
Proof.
  induction l as [|[k w] l IH]; cbn [JsMore.set CollectionRoute.get].
  - now rewrite String.eqb_refl.
  - destruct (String.eqb k n) eqn:Hk; cbn [CollectionRoute.get]; now rewrite Hk.
Qed.

Lemma get_without (n m : string) (l : list (string * string)) :
  m <> n -> CollectionRoute.get m (JsMore.without n l) = CollectionRoute.get m l.
Proof.
  intros Hne. unfold JsMore.without.
  induction l as [|[k w] l IH]; cbn [filter CollectionRoute.get fst]; [reflexivity|].
  destruct (String.eqb_spec k n) as [->|Hk]; cbn [negb CollectionRoute.get].
  - destruct (String.eqb_spec n m) as [<-|_]; [contradiction | exact IH].
  - now rewrite IH.
Qed.

Lemma get_set_other (n m v : string) (l : list (string * string)) :
  m <> n -> CollectionRoute.get m (JsMore.set n v l) = CollectionRoute.get m l.
Proof.
  intros Hne.
  induction l as [|[k w] l IH]; cbn [JsMore.set CollectionRoute.get].
  - destruct (String.eqb_spec n m) as [<-|_]; [contradiction | reflexivity].
  - destruct (String.eqb_spec k n) as [->|Hk]; cbn [CollectionRoute.get].
    + destruct (String.eqb_spec n m) as [<-|_]; [contradiction|].
      now apply get_without.
    + now rewrite IH.
Qed.

Lemma set_after (n v : string) (l added : list (string * string)) :
  CollectionRoute.has n l = false ->
  JsMore.set n v (l ++ added) = l ++ JsMore.set n v added.
Proof.
  unfold CollectionRoute.has.
  induction l as [|[k w] l IH]; cbn [app existsb fst JsMore.set]; [reflexivity|].
  destruct (String.eqb k n); cbn [orb]; [discriminate|].
  intros Hl. now rewrite (IH Hl).
Qed.

Lemma set_names (n v : string) (l : list (string * string)) (P : string -> Prop) :
  P n -> Forall (fun kv => P (fst kv)) l -> Forall (fun kv => P (fst kv)) (JsMore.set n v l).
Proof.
  intros Hn Hl.
  induction Hl as [|[k w] l Hk Hl IH]; cbn [JsMore.set].
  - constructor; [exact Hn | constructor].
  - destruct (String.eqb k n).
    + constructor; [exact Hk|]. unfold JsMore.without.
      apply Forall_forall. intros kv Hin. apply filter_In in Hin.
      destruct Hin as [Hin _]. revert kv Hin. now apply Forall_forall.
    + constructor; assumption.
Qed.

(** X15.  [searchParamsWithDefaults] keeps the pairs of the URL as they
    are and adds pairs after them, all of names the URL does not have.  What
    [get] then gives for a name is the value of the URL when the URL has the
    name, and otherwise the value of the option of this name among the options
    of the first variant, the last one if there are several. *)
Theorem searchParamsWithDefaults_get (searchParams : CollectionRoute.URLSearchParams)
    (selectedOptions : list SelectedOption) :
  (exists added,
     searchParamsWithDefaults searchParams selectedOptions = searchParams ++ added
     /\ Forall (fun kv => CollectionRoute.has (fst kv) searchParams = false) added)
  /\ (forall n,
        CollectionRoute.get n (searchParamsWithDefaults searchParams selectedOptions)
        = match CollectionRoute.get n searchParams with
          | Some v => Some v
          | None => CollectionRoute.get n (later_first selectedOptions)
          end).
Proof.
  unfold searchParamsWithDefaults, later_first.
  induction selectedOptions as [|o opts IH] using rev_ind.
  - split.
    + exists []. now rewrite app_nil_r.
    + intros n. cbn. now destruct (CollectionRoute.get n searchParams).
  - destruct IH as [(added & Hadded & Hnames) Hget].
    rewrite fold_left_app. cbn [fold_left]. rewrite Hadded in *.
    rewrite map_app, rev_app_distr. cbn [map rev app].
    destruct (CollectionRoute.has (name o) searchParams) eqn:Hhas; cbn [negb].
    + split; [now exists added|].
      intros n. rewrite Hget. cbn [CollectionRoute.get].
      destruct (CollectionRoute.get n searchParams) eqn:Hn; [reflexivity|].
      destruct (String.eqb_spec (name o) n) as [<-|_]; [|reflexivity].
      rewrite has_get, Hn in Hhas. discriminate.
    + split.
      * exists (JsMore.set (name o) (value o) added).
        split; [now apply set_after|].
        now apply (set_names _ _ _ (fun k => CollectionRoute.has k searchParams = false)).
      * intros n. cbn [CollectionRoute.get].
        destruct (String.eqb_spec (name o) n) as [<-|Hne].
        -- rewrite get_set_same. rewrite has_get in Hhas.
           now destruct (CollectionRoute.get (name o) searchParams).
        -- rewrite get_set_other by congruence. apply Hget.
Qed.

Lemma named_without (n : string) (l : list (string * string)) :
  named n (JsMore.without n l) = [].
Proof.
  unfold named, JsMore.without.
  induction l as [|[k w] l IH]; cbn [filter fst]; [reflexivity|].
  destruct (String.eqb k n) eqn:Hk; cbn [negb filter fst]; [exact IH|].
  now rewrite Hk.
Qed.

Lemma without_without (n : string) (l : list (string * string)) :
  JsMore.without n (JsMore.without n l) = JsMore.without n l.
Proof.
  unfold JsMore.without.
  induction l as [|[k w] l IH]; cbn [filter fst]; [reflexivity|].
  destruct (String.eqb k n) eqn:Hk; cbn [negb filter fst]; [exact IH|].
  rewrite Hk. cbn [negb]. now rewrite IH.
Qed.

(** X16.  The parameters of the link of an option value: [get] gives the
    value for the name of the option and what it gave before for every other
    name; one pair has the name of the option, whatever the number before;
    the pairs of the other names are the same, in the same order; and the
    link of a value that is already set this way leaves the parameters as
    they are. *)
Theorem link_params_set (optionName optionValue : string)
    (searchParams : CollectionRoute.URLSearchParams) :
  CollectionRoute.get optionName (link_params optionName optionValue searchParams)
  = Some optionValue
  /\ (forall m, m <> optionName ->
        CollectionRoute.get m (link_params optionName optionValue searchParams)
        = CollectionRoute.get m searchParams)
  /\ named optionName (link_params optionName optionValue searchParams)
     = [(optionName, optionValue)]
  /\ JsMore.without optionName (link_params optionName optionValue searchParams)
     = JsMore.without optionName searchParams
  /\ link_params optionName optionValue
       (link_params optionName optionValue searchParams)
     = link_params optionName optionValue searchParams.
Proof.
  unfold link_params. split; [apply get_set_same|].
  split; [intros m Hm; now apply get_set_other|].
  induction searchParams as [|[k w] l (IH1 & IH2 & IH3)];
    cbn [JsMore.set named JsMore.without filter fst].
  - rewrite String.eqb_refl. cbn [negb]. repeat split.
  - destruct (String.eqb_spec k optionName) as [->|Hk];
      cbn [named JsMore.without filter fst JsMore.set].
    + rewrite String.eqb_refl. cbn [negb].
      fold (named optionName (JsMore.without optionName l)).
      fold (JsMore.without optionName (JsMore.without optionName l)).
      rewrite named_without, !without_without. repeat split.
    + destruct (String.eqb_spec k optionName) as [|_]; [contradiction|].
      cbn [negb]. fold (named optionName (JsMore.set optionName optionValue l)).
      fold (JsMore.without optionName (JsMore.set optionName optionValue l)).
      fold (JsMore.without optionName l).
      rewrite IH1, IH2, IH3. repeat split.
Qed.

End OptionFacts.

Section LinkPath.

Import ProductPage.

Lemma split_nonempty (sep : ascii) (s : string) : Js.split sep s <> [].
Proof.
  destruct s as [|c s]; cbn [Js.split]; [discriminate|].
  destruct (Ascii.eqb c sep); [discriminate|].
  destruct (Js.split sep s); discriminate.
Qed.

(** Joining the pieces with the separator gives the text back. *)
Lemma join_split (sep : ascii) (s : string) :
  JsMore.join (String sep "") (Js.split sep s) = s.
Proof.
  unfold JsMore.join.
  induction s as [|c s IH]; cbn [Js.split]; [reflexivity|].
  pose proof (split_nonempty sep s) as Hne.
  destruct (Js.split sep s) as [|piece pieces]; [contradiction|].
  destruct (Ascii.eqb_spec c sep) as [->|Hc].
  - change (String.concat (String sep "") ("" :: piece :: pieces)%string)
      with (String sep (String.concat (String sep "") (piece :: pieces))).
    now rewrite IH.
  - destruct pieces as [|p ps].
    + change (String.concat (String sep "") [piece]) with piece in IH.
      now rewrite <- IH.
    + change (String.concat (String sep "") (piece :: p :: ps))
        with (piece ++ String sep (String.concat (String sep "") (p :: ps)))%string in IH.
      change (String.concat (String sep "") (String c piece :: p :: ps))
        with (String c (piece ++ String sep (String.concat (String sep "") (p :: ps)))).
      now rewrite IH.
Qed.

Lemma split_segment (seg rest : string) :
  no_slash seg = true ->
  Js.split "/" (seg ++ String "/" rest) = seg :: Js.split "/" rest.
Proof.
  unfold no_slash.
  induction seg as [|c seg IH]; cbn [append Js.split Js.chars list_ascii_of_string forallb].
  - intros _. reflexivity.
  - destruct (Ascii.eqb c "/"); cbn [negb andb]; [discriminate|].
    intros Hseg. now rewrite (IH Hseg).
Qed.

Lemma letter_no_slash (c : ascii) : JsMore.is_letter c = true -> Ascii.eqb c "/" = false.
Proof.
  destruct (Ascii.eqb_spec c "/") as [->|]; [discriminate | reflexivity].
Qed.

(** X17.  The path of the link of an option value.  A path in which
    [/xx-yy/] (letters for x and y) occurs nowhere is kept.  A path in which
    it occurs, wherever that is, loses its first segment: [/segment/rest]
    becomes [/rest], so [/xx-yy/rest] becomes [/rest]. *)
Theorem link_path_first_segment :
  (forall pathname, JsMore.lang_test pathname = false -> link_path pathname = pathname)
  /\ (forall segment rest,
        no_slash segment = true ->
        JsMore.lang_test (String "/" (segment ++ String "/" rest)) = true ->
        link_path (String "/" (segment ++ String "/" rest)) = String "/" rest)
  /\ (forall a b c d rest,
        JsMore.is_letter a = true -> JsMore.is_letter b = true ->
        JsMore.is_letter c = true -> JsMore.is_letter d = true ->
        link_path
          (String "/" (String a (String b (String "-" (String c (String d (String "/" rest)))))))
        = String "/" rest).
Proof.
  assert (Hstrip : forall segment rest,
            no_slash segment = true ->
            JsMore.lang_test (String "/" (segment ++ String "/" rest)) = true ->
            link_path (String "/" (segment ++ String "/" rest)) = String "/" rest).
  { intros segment rest Hseg Htest. unfold link_path. rewrite Htest.
    cbn [Js.split]. change (Ascii.eqb "/" "/") with true. cbv iota.
    rewrite split_segment by exact Hseg. cbn [skipn].
    change "/"%string with (String "/" "") at 2. rewrite join_split. reflexivity. }
  split; [|split; [exact Hstrip|]].
  - intros pathname Htest. unfold link_path. now rewrite Htest.
  - intros a b c d rest Ha Hb Hc Hd.
    apply (Hstrip (String a (String b (String "-" (String c (String d ""))))) rest).
    + unfold no_slash. cbn [Js.chars list_ascii_of_string forallb].
      rewrite (letter_no_slash a Ha), (letter_no_slash b Hb),
        (letter_no_slash c Hc), (letter_no_slash d Hd). reflexivity.
    + cbn [append JsMore.lang_test JsMore.lang_here]. now rewrite Ha, Hb, Hc, Hd.
Qed.

End LinkPath.

Section OptionsShown.

Import ProductPage.

Lemma filter_absent (current : string) (l : list string) :
  ~ In current l -> filter (String.eqb current) l = [].
Proof.
  induction l as [|x l IH]; cbn [filter In]; [reflexivity|].
  intros Hnot. destruct (String.eqb_spec current x) as [->|_]; [tauto|].
  apply IH. tauto.
Qed.

Lemma checked_at_most_one (params : CollectionRoute.URLSearchParams) (n : string)
    (values : list string) :
  NoDup values ->
  (List.length (filter (checked params n) values) <= 1)%nat.
Proof.
  intros Hnd.
  destruct (CollectionRoute.get n params) as [current|] eqn:Hget.
  - rewrite (filter_ext (checked params n) (String.eqb current))
      by (intros v; unfold checked; now rewrite Hget).
    induction Hnd as [|x l Hnotin Hnd IH]; cbn [filter]; [cbn; lia|].
    destruct (String.eqb_spec current x) as [->|_]; [|exact IH].
    rewrite (filter_absent x l Hnotin). cbn. lia.
  - rewrite (filter_ext (checked params n) (fun _ => false))
      by (intros v; unfold checked; now rewrite Hget).
    clear. induction values as [|x l IH]; cbn [filter]; [cbn; lia | exact IH].
Qed.

Lemma checked_items (f : string -> bool) (values : list string) :
  map fst (map (fun v => (v, f v)) values) = values
  /\ List.length (filter snd (map (fun v => (v, f v)) values))
     = List.length (filter f values)
  /\ forall v, In (v, true) (map (fun v => (v, f v)) values) <-> In v values /\ f v = true.
Proof.
  split; [|split].
  - rewrite map_map. cbn [fst]. apply map_id.
  - induction values as [|x l IH]; cbn [map filter snd]; [reflexivity|].
    destruct (f x); cbn [List.length]; now rewrite IH.
  - intros v. rewrite in_map_iff. split.
    + intros (x & [= -> Hf] & Hin). now split.
    + intros [Hin Hf]. exists v. now rewrite Hf.
Qed.

(** X18.  What [ProductOptions] shows.  The options shown are those with
    two values or more, in their order.  Each shows all its values in their
    order, in a list box when there are more than seven and as links
    otherwise; a value is checked exactly when it is the value of the search
    parameters under the name of the option; and of values that are all
    different at most one is checked. *)
Theorem ProductOptions_shown (options : list ProductOption)
    (params : CollectionRoute.URLSearchParams) :
  map fst (ProductOptions options params)
  = map option_name
        (filter (fun o => (1 <? List.length (option_values o))%nat) options)
  /\ Forall
       (fun shown =>
          exists o,
            In o options
            /\ fst shown = option_name o
            /\ (2 <= List.length (option_values o))%nat
            /\ map fst (items_of (snd shown)) = option_values o
            /\ (is_listbox (snd shown) = true <-> (7 < List.length (option_values o))%nat)
            /\ (forall v, In (v, true) (items_of (snd shown))
                          <-> In v (option_values o)
                              /\ CollectionRoute.get (option_name o) params = Some v)
            /\ (NoDup (option_values o) ->
                (List.length (filter snd (items_of (snd shown))) <= 1)%nat))
       (ProductOptions options params).
Proof.
  unfold ProductOptions. split.
  - rewrite map_map. cbn [fst]. reflexivity.
  - apply Forall_forall. intros shown Hin.
    apply in_map_iff in Hin. destruct Hin as (o & <- & Hin).
    apply filter_In in Hin. destruct Hin as [Hin Hlen].
    apply Nat.ltb_lt in Hlen.
    exists o. cbn [fst snd].
    destruct (checked_items (checked params (option_name o)) (option_values o))
      as (Hfst & Hcount & Htrue).
    split; [exact Hin|]. split; [reflexivity|]. split; [lia|].
    assert (Hitems : items_of
              (if (7 <? List.length (option_values o))%nat
               then Listbox (CollectionRoute.get (option_name o) params)
                      (map (fun v => (v, checked params (option_name o) v))
                           (option_values o))
               else Links (map (fun v => (v, checked params (option_name o) v))
                               (option_values o)))
            = map (fun v => (v, checked params (option_name o) v)) (option_values o))
      by (destruct (7 <? List.length (option_values o))%nat; reflexivity).
    rewrite Hitems. split; [exact Hfst|]. split; [|split].
    + destruct (Nat.ltb_spec 7 (List.length (option_values o))); cbn [is_listbox];
        split; intros H'; try lia; try discriminate; reflexivity.
    + intros v. rewrite Htrue. unfold checked.
      destruct (CollectionRoute.get (option_name o) params) as [current|].
      * split; intros [Hv Heq]; (split; [exact Hv|]).
        -- apply String.eqb_eq in Heq. now subst.
        -- injection Heq as ->. apply String.eqb_refl.
      * split; intros [_ H']; discriminate.
    + intros Hnd. rewrite Hcount. now apply checked_at_most_one.
Qed.

End OptionsShown.

(** ** The home route: the language of the path *)

Section HomeFacts.

Import HomeRoute.

Lemma lower_char_idempotent (c : ascii) :
  JsMore.lower_char (JsMore.lower_char c) = JsMore.lower_char c.
Proof. destruct c as [[] [] [] [] [] [] [] []]; reflexivity. Qed.

Lemma toLowerCase_idempotent (s : string) :
  JsMore.toLowerCase (JsMore.toLowerCase s) = JsMore.toLowerCase s.
Proof.
  induction s as [|c s IH]; cbn [JsMore.toLowerCase]; [reflexivity|].
  now rewrite lower_char_idempotent, IH.
Qed.

Lemma toLowerCase_app (a b : string) :
  JsMore.toLowerCase (a ++ b) = (JsMore.toLowerCase a ++ JsMore.toLowerCase b)%string.
Proof.
  induction a as [|c a IH]; cbn [append JsMore.toLowerCase]; [reflexivity|].
  now rewrite IH.
Qed.

Lemma toLowerCase_empty (s : string) :
  String.eqb s "" = String.eqb (JsMore.toLowerCase s) "".
Proof. destruct s; reflexivity. Qed.

(** X19.  The loader of the home page refuses a [lang] of the path (status
    404) exactly when it is not empty and differs from
    [language-country] after both are put in lower case.  So no [lang] and an
    empty one pass, and the case of the letters plays no part, in [lang], in
    the language and in the country. *)
Theorem lang_is_invalid_ignores_case (language country : string) :
  lang_is_invalid None language country = false
  /\ lang_is_invalid (Some ""%string) language country = false
  /\ (forall lang,
        lang <> ""%string ->
        (lang_is_invalid (Some lang) language country = false
         <-> JsMore.toLowerCase lang
             = (JsMore.toLowerCase language ++ "-" ++ JsMore.toLowerCase country)%string))
  /\ (forall lang,
        lang_is_invalid (Some (JsMore.toLowerCase lang))
                        (JsMore.toLowerCase language) (JsMore.toLowerCase country)
        = lang_is_invalid (Some lang) language country)
  /\ (forall lang lang',
        JsMore.toLowerCase lang = JsMore.toLowerCase lang' ->
        lang_is_invalid (Some lang) language country
        = lang_is_invalid (Some lang') language country).
Proof.
  assert (Hcode : JsMore.toLowerCase (language ++ "-" ++ country)
                  = (JsMore.toLowerCase language ++ "-" ++ JsMore.toLowerCase country)%string).
  { now rewrite !toLowerCase_app. }
  split; [reflexivity|]. split; [reflexivity|]. split; [|split].
  - intros lang Hne. unfold lang_is_invalid. cbn [Js.ToBoolean].
    destruct (String.eqb_spec lang "") as [|_]; [contradiction|]. cbn [negb andb].
    rewrite Hcode.
    destruct (String.eqb_spec (JsMore.toLowerCase lang)
                (JsMore.toLowerCase language ++ "-" ++ JsMore.toLowerCase country));
      cbn [negb]; split; intros H; try assumption; try reflexivity;
      try discriminate; contradiction.
  - intros lang. unfold lang_is_invalid. cbn [Js.ToBoolean].
    rewrite <- toLowerCase_empty, !toLowerCase_app, !toLowerCase_idempotent.
    reflexivity.
  - intros lang lang' Heq. unfold lang_is_invalid. cbn [Js.ToBoolean].
    rewrite (toLowerCase_empty lang), (toLowerCase_empty lang'), Heq. reflexivity.
Qed.

End HomeFacts.

(** ** The product route: ratings that are text *)

Section TextRatings.

Import ProductRoute ProductMore.

Lemma loop_on_text (reviews : list Review) :
  forall s,
    fold_left loop_step reviews (Js.Str s) = Js.Str (s ++ rating_texts reviews).
Proof.
  induction reviews as [|r reviews IH]; intros s; cbn [fold_left rating_texts].
  - f_equal. clear. induction s as [|c s IH]; cbn; congruence.
  - unfold loop_step at 2, truthy_rating.
    destruct (Js.ToBoolean (rating r)); [|apply IH].
    replace (Js.plus (Js.Str s) (rating r))
      with (Js.Str (s ++ Js.ToString (rating r)))
      by (destruct (rating r); reflexivity).
    rewrite IH. f_equal. clear.
    induction s as [|c s IH]; cbn; congruence.
Qed.

(** X20.  A rating that is text turns the sum of [getAverageRating] into
    text: after reviews without a truthy rating, a review whose rating is a
    string that is not empty makes the sum the text [0] followed by this
    string, and every later truthy rating is put after it as text, a number
    in its decimal writing.  The average is then computed from the number
    this text reads as. *)
Theorem text_rating_concatenates (before after : list Review) (r : Review) (t : string) :
  Forall (fun review => truthy_rating review = false) before ->
  rating r = Js.Str t ->
  t <> ""%string ->
  sum_loop (before ++ r :: after) = Js.Str ("0" ++ t ++ rating_texts after)
  /\ getAverageRating (before ++ r :: after)
     = average_of (Js.Str ("0" ++ t ++ rating_texts after))
                  (List.length (before ++ r :: after)).
Proof.
  intros Hbefore Hr Ht.
  assert (Hsum : sum_loop (before ++ r :: after)
                 = Js.Str ("0" ++ t ++ rating_texts after)).
  { unfold sum_loop. rewrite fold_left_app.
    replace (fold_left loop_step before (Js.Number Js.zero)) with (Js.Number Js.zero).
    - cbn [fold_left]. unfold loop_step at 2. rewrite Hr. cbn [Js.ToBoolean].
      destruct (String.eqb_spec t "") as [|_]; [contradiction|]. cbn [negb].
      change (Js.plus (Js.Number Js.zero) (Js.Str t)) with (Js.Str ("0" ++ t)).
      rewrite loop_on_text. reflexivity.
    - symmetry. induction Hbefore as [|x l Hx _ IH]; [reflexivity|].
      cbn [fold_left]. unfold truthy_rating in Hx.
      now rewrite loop_step_falsy. }
  split; [exact Hsum|]. unfold getAverageRating. now rewrite Hsum.
Qed.

Lemma text_rating_concatenates_witness :
  let text := {| product_external_id := Js.Str "p1"; rating := Js.Str "5" |} in
  let four := {| product_external_id := Js.Str "p1"; rating := Js.Number (Js.of_Z 4) |} in
  let none := {| product_external_id := Js.Str "p1"; rating := Js.Undefined |} in
  sum_loop [none; text; four] = Js.Str "054"
  /\ getAverageRating [none; text; four] = Js.Returned (Js.Str "18.00").
Proof.
  intros text four none.
  destruct (text_rating_concatenates [none] [four] text "5") as [Hsum Havg].
  - repeat constructor.
  - reflexivity.
  - discriminate.
  - cbn [app] in Hsum, Havg. split; [rewrite Hsum | rewrite Havg]; reflexivity.
Defined.

End TextRatings.

(** ** Numbers: whole numbers are added without error *)

Section WholeNumbers.

Import ProductMore.

Lemma Zdigits2_spec (p : positive) :
  2 ^ (Zdigits2 (Z.pos p) - 1) <= Z.pos p < 2 ^ Zdigits2 (Z.pos p).
Proof.
  cbn [Zdigits2]. rewrite digits2_size. split; [|apply size_gt_Z].
  pose proof (Pos.size_le p) as Hle.
  apply Pos2Z.pos_le_pos in Hle. rewrite Pos2Z.inj_pow, (Pos2Z.inj_xO p) in Hle.
  replace (Z.pos (Pos.size p)) with (Z.pos (Pos.size p) - 1 + 1) in Hle by lia.
  rewrite Z.pow_add_r, Z.pow_1_r in Hle by lia. lia.
Qed.

Lemma Zdigits2_exact (z D : Z) : 2 ^ (D - 1) <= z < 2 ^ D -> 0 < z -> Zdigits2 z = D.
Proof.
  intros [Hlow Hhigh] Hpos.
  pose proof (Zdigits2_bound z D ltac:(lia)) as Hle.
  destruct z as [|p|p]; try lia.
  destruct (Zdigits2_spec p) as [_ Hlt].
  destruct (Z.le_gt_cases D (Zdigits2 (Z.pos p))) as [|Hgt]; [lia|exfalso].
  assert (Hpow : 2 ^ Zdigits2 (Z.pos p) <= 2 ^ (D - 1))
    by (apply Z.pow_le_mono_r; lia).
  lia.
Qed.

Lemma Zdigits2_shift (p : positive) (k : Z) :
  0 <= k -> Zdigits2 (Z.pos p * 2 ^ k) = Zdigits2 (Z.pos p) + k.
Proof.
  intros Hk. destruct (Zdigits2_spec p) as [Hlow Hhigh].
  assert (Hd : 1 <= Zdigits2 (Z.pos p)) by (cbn; lia).
  assert (H2k : 0 < 2 ^ k) by (apply Z.pow_pos_nonneg; lia).
  apply Zdigits2_exact; [|lia].
  replace (Zdigits2 (Z.pos p) + k - 1) with (Zdigits2 (Z.pos p) - 1 + k) by lia.
  rewrite !Z.pow_add_r by lia. split.
  - apply Z.mul_le_mono_nonneg_r; lia.
  - apply Z.mul_lt_mono_pos_r; lia.
Qed.

Lemma shr_1_even (m : Z) :
  0 <= m ->
  shr_1 {| shr_m := 2 * m; shr_r := false; shr_s := false |}
  = {| shr_m := m; shr_r := false; shr_s := false |}.
Proof. destruct m as [|p|p]; [reflexivity | reflexivity | lia]. Qed.

Lemma iter_shr_1_exact (n : positive) :
  forall m, 0 <= m ->
    iter_pos shr_1 n {| shr_m := m * 2 ^ Z.pos n; shr_r := false; shr_s := false |}
    = {| shr_m := m; shr_r := false; shr_s := false |}.
Proof.
  induction n as [n IH|n IH|]; intros m Hm; cbn [iter_pos].
  - replace (m * 2 ^ Z.pos n~1) with (2 * (m * 2 ^ Z.pos n * 2 ^ Z.pos n)).
    + rewrite shr_1_even by (pose proof (Z.pow_pos_nonneg 2 (Z.pos n)); nia).
      rewrite IH by (pose proof (Z.pow_pos_nonneg 2 (Z.pos n)); nia).
      now apply IH.
    + rewrite Pos2Z.inj_xI, Z.pow_add_r, Z.pow_1_r by lia.
      replace (2 * Z.pos n) with (Z.pos n + Z.pos n) by lia.
      rewrite Z.pow_add_r by lia. ring.
  - replace (m * 2 ^ Z.pos n~0) with (m * 2 ^ Z.pos n * 2 ^ Z.pos n).
    + rewrite IH by (pose proof (Z.pow_pos_nonneg 2 (Z.pos n)); nia).
      now apply IH.
    + rewrite (Pos2Z.inj_xO n).
      replace (2 * Z.pos n) with (Z.pos n + Z.pos n) by lia.
      rewrite Z.pow_add_r by lia. ring.
  - rewrite Z.pow_1_r, Z.mul_comm. now apply shr_1_even.
Qed.

Lemma shr_exact (m e n : Z) :
  0 <= m -> 0 <= n ->
  shr {| shr_m := m * 2 ^ n; shr_r := false; shr_s := false |} e n
  = ({| shr_m := m; shr_r := false; shr_s := false |}, e + n).
Proof.
  intros Hm Hn. unfold shr. destruct n as [|q|q]; [|now rewrite iter_shr_1_exact|lia].
  now rewrite Z.pow_0_r, Z.mul_1_r, Z.add_0_r.
Qed.

(** Rounding a whole number below [2 ^ 53], given with a mantissa that may
    carry zeros at the end, gives the number itself, in the one writing of
    it. *)
Lemma binary_round_whole (M N : positive) (e : Z) :
  e <= 0 ->
  Z.pos M = Z.pos N * 2 ^ (- e) ->
  Z.pos N < 2 ^ 53 ->
  binary_round Js.prec Js.emax false M e = whole (Z.pos N).
Proof.
  intros He HM HN.
  set (d := Zdigits2 (Z.pos N)).
  assert (Hd : 1 <= d <= 53).
  { split; [unfold d; cbn; lia | apply Zdigits2_bound; lia]. }
  assert (HdM : Z.pos (digits2_pos M) = d - e).
  { change (Z.pos (digits2_pos M)) with (Zdigits2 (Z.pos M)).
    rewrite HM, Zdigits2_shift by lia. unfold d. lia. }
  unfold binary_round. rewrite HdM, fexp_eq.
  replace (Z.max (d - e + e - 53) (-1074)) with (d - 53) by lia.
  destruct (shl_align_spec M e (d - 53)) as [Hez Hmz].
  destruct (shl_align M e (d - 53)) as [mz ez]. cbn [fst snd] in Hez, Hmz.
  assert (Hmz' : Z.pos mz = Z.pos N * 2 ^ (53 - d) * 2 ^ (d - 53 - ez)).
  { rewrite Hmz, HM, <- !Z.mul_assoc, <- !Z.pow_add_r by lia.
    f_equal. f_equal. lia. }
  assert (Hdz : Zdigits2 (Z.pos mz) = d - ez).
  { replace (Z.pos mz) with (Z.pos N * 2 ^ (- ez)).
    - rewrite Zdigits2_shift by lia. fold d. lia.
    - rewrite Hmz, HM, <- Z.mul_assoc, <- Z.pow_add_r by lia. f_equal. f_equal. lia. }
  set (m1 := Z.pos N * 2 ^ (53 - d)) in *.
  assert (Hm1 : 0 < m1) by (unfold m1; pose proof (Z.pow_pos_nonneg 2 (53 - d)); nia).
  assert (Hd1 : Zdigits2 m1 = 53).
  { unfold m1. rewrite Zdigits2_shift by lia. fold d. lia. }
  unfold binary_round_aux, shr_fexp.
  rewrite Hdz, fexp_eq.
  replace (Z.max (d - ez + ez - 53) (-1074) - ez) with (d - 53 - ez) by lia.
  cbn [shr_record_of_loc]. rewrite Hmz', shr_exact by lia.
  cbn [loc_of_shr_record shr_m round_nearest_even shr_record_of_loc].
  rewrite Hd1, fexp_eq.
  replace (Z.max (53 + (ez + (d - 53 - ez)) - 53) (-1074) - (ez + (d - 53 - ez)))
    with 0 by lia.
  cbn [shr shr_m].
  unfold whole. fold d. fold m1.
  destruct m1 as [|q|q]; try lia.
  replace (ez + (d - 53 - ez)) with (d - 53) by lia.
  destruct (Z.leb_spec (d - 53) (Js.emax - Js.prec)) as [_|Hbig];
    [reflexivity | unfold Js.emax, Js.prec in Hbig; lia].
Qed.

Lemma of_Z_whole (n : Z) : 0 <= n < 2 ^ 53 -> Js.of_Z n = whole n.
Proof.
  intros [Hn Hlt]. destruct n as [|p|p]; [reflexivity| |lia].
  unfold Js.of_Z, binary_normalize.
  apply binary_round_whole; [lia | | exact Hlt].
  cbn [Z.opp]. now rewrite Z.pow_0_r, Z.mul_1_r.
Qed.

Lemma add_whole (a b : Z) :
  0 <= a -> 0 <= b -> a + b < 2 ^ 53 ->
  Js.add (whole a) (whole b) = whole (a + b).
Proof.
  intros Ha Hb Hsum.
  destruct a as [|p|p]; [|destruct b as [|q|q]|]; try lia.
  - destruct b; try lia; reflexivity.
  - rewrite Z.add_0_r. reflexivity.
  - change (whole (Z.pos p + Z.pos q)) with (whole (Z.pos (p + q))).
    set (da := Zdigits2 (Z.pos p)). set (db := Zdigits2 (Z.pos q)).
    assert (Hda : 1 <= da <= 53).
    { split; [unfold da; cbn; lia | apply Zdigits2_bound; lia]. }
    assert (Hdb : 1 <= db <= 53).
    { split; [unfold db; cbn; lia | apply Zdigits2_bound; lia]. }
    unfold whole at 1 2. fold da. fold db.
    set (ma := Z.to_pos (Z.pos p * 2 ^ (53 - da))).
    set (mb := Z.to_pos (Z.pos q * 2 ^ (53 - db))).
    assert (Hma : Z.pos ma = Z.pos p * 2 ^ (53 - da)).
    { unfold ma. apply Z2Pos.id. pose proof (Z.pow_pos_nonneg 2 (53 - da)). nia. }
    assert (Hmb : Z.pos mb = Z.pos q * 2 ^ (53 - db)).
    { unfold mb. apply Z2Pos.id. pose proof (Z.pow_pos_nonneg 2 (53 - db)). nia. }
    unfold Js.add, SFadd, cond_Zopp, binary_normalize.
    set (ez := Z.min (da - 53) (db - 53)).
    destruct (shl_align_spec ma (da - 53) ez) as [_ Hsa].
    destruct (shl_align_spec mb (db - 53) ez) as [_ Hsb].
    replace (Z.min (da - 53) ez) with ez in Hsa by (unfold ez; lia).
    replace (Z.min (db - 53) ez) with ez in Hsb by (unfold ez; lia).
    cbn [Z.add].
    apply binary_round_whole; [unfold ez; lia | | exact Hsum].
    rewrite Pos2Z.inj_add, Hsa, Hsb, Hma, Hmb, (Pos2Z.inj_add p q).
    rewrite <- !Z.mul_assoc, <- !Z.pow_add_r by (unfold ez; lia).
    replace (53 - da + (da - 53 - ez)) with (- ez) by lia.
    replace (53 - db + (db - 53 - ez)) with (- ez) by lia.
    ring.
Qed.

End WholeNumbers.

(** ** The product route: ratings that are whole numbers *)

Section WholeRatings.

Import ProductRoute ProductMore.

Lemma number_eqb_eq (x y : Js.number) : Js.number_eqb x y = true -> x = y.
Proof.
  destruct x as [a|a| |a m e], y as [b|b| |b n f]; cbn [Js.number_eqb];
    try discriminate; try reflexivity.
  - intros H. apply Bool.eqb_prop in H. now subst.
  - intros H. apply Bool.eqb_prop in H. now subst.
  - intros H. apply andb_true_iff in H. destruct H as [H He].
    apply andb_true_iff in H. destruct H as [Hs Hm].
    apply Bool.eqb_prop in Hs. apply Pos.eqb_eq in Hm. apply Z.eqb_eq in He.
    now subst.
Qed.

Lemma stars_cases (v : Js.value) (n : Z) :
  stars v = Some n ->
  0 <= n <= 5
  /\ (v = Js.Number (whole n) \/ (n = 0 /\ Js.ToBoolean v = false)).
Proof.
  destruct v as [| |b|x|s]; cbn [stars]; try discriminate.
  - intros [= <-]. split; [lia | right; now split].
  - intros [= <-]. split; [lia | right; now split].
  - intros Hfind. apply find_some in Hfind. destruct Hfind as [Hin Heq].
    apply number_eqb_eq in Heq. subst x.
    cbn [In] in Hin.
    repeat (destruct Hin as [<-|Hin]; [split; [lia | left; reflexivity]|]).
    contradiction.
Qed.

Lemma stars_of_range (r : Review) : 0 <= stars_of r <= 5.
Proof.
  unfold stars_of. destruct (stars (rating r)) as [n|] eqn:Hs; [|lia].
  now destruct (stars_cases _ _ Hs).
Qed.

Lemma total_stars_range (reviews : list Review) :
  0 <= total_stars reviews <= 5 * Z.of_nat (List.length reviews).
Proof.
  induction reviews as [|r rest IH]; unfold total_stars; cbn [fold_right List.length]; [lia|].
  fold (total_stars rest). pose proof (stars_of_range r). lia.
Qed.

Lemma total_stars_permutation (l l' : list Review) :
  Permutation l l' -> total_stars l = total_stars l'.
Proof.
  induction 1 as [|x l l' _ IH|x y l|l l' l'' _ IH1 _ IH2];
    unfold total_stars in *; cbn [fold_right]; try lia; congruence.
Qed.

Lemma whole_truthy (n : Z) : 0 < n -> Js.ToBoolean (Js.Number (whole n)) = true.
Proof. destruct n; try lia. reflexivity. Qed.

Lemma loop_whole (reviews : list Review) :
  forall acc,
    0 <= acc ->
    Forall (fun r => stars (rating r) <> None) reviews ->
    acc + total_stars reviews < 2 ^ 53 ->
    fold_left loop_step reviews (Js.Number (whole acc))
    = Js.Number (whole (acc + total_stars reviews)).
Proof.
  induction reviews as [|r rest IH]; intros acc Hacc Hall Hsum;
    cbn [fold_left]; unfold total_stars in Hsum |- *; cbn [fold_right] in Hsum |- *.
  - now rewrite Z.add_0_r.
  - fold (total_stars rest) in Hsum |- *.
    inversion Hall as [|r' rs Hr Hrest]; subst.
    pose proof (total_stars_range rest) as Htotal.
    unfold stars_of in *.
    destruct (stars (rating r)) as [n|] eqn:Hs; [|contradiction].
    destruct (stars_cases _ _ Hs) as [Hn [Hv|[-> Hfalsy]]].
    + destruct (Z.eq_dec n 0) as [->|Hnz].
      * rewrite loop_step_falsy by (rewrite Hv; reflexivity).
        rewrite Z.add_0_l. apply IH; auto; lia.
      * rewrite loop_step_truthy by (rewrite Hv; apply whole_truthy; lia).
        rewrite Hv. unfold Js.plus. cbn [Js.ToNumber].
        rewrite add_whole by lia.
        rewrite IH by (auto; lia). f_equal. f_equal. lia.
    + rewrite loop_step_falsy by exact Hfalsy.
      rewrite Z.add_0_l. apply IH; auto; lia.
Qed.

(** X21.  For ratings that are whole numbers from 0 to 5, or are missing,
    the sum of [getAverageRating] is exact: it is the number of all the stars
    together.  So the average is the number 0 exactly when there is no star
    at all, and the order of the reviews plays no part in it. *)
Theorem whole_ratings_sum (reviews : list Review) :
  Forall (fun r => stars (rating r) <> None) reviews ->
  Z.of_nat (List.length reviews) <= max_array_length ->
  sum_loop reviews = Js.Number (Js.of_Z (total_stars reviews))
  /\ (getAverageRating reviews = Js.Returned (Js.Number Js.zero)
      <-> total_stars reviews = 0)
  /\ (forall reviews',
        Permutation reviews reviews' ->
        getAverageRating reviews' = getAverageRating reviews).
Proof.
  assert (Hsum : forall l,
            Forall (fun r => stars (rating r) <> None) l ->
            Z.of_nat (List.length l) <= max_array_length ->
            sum_loop l = Js.Number (whole (total_stars l))
            /\ 0 <= total_stars l < 2 ^ 53).
  { intros l Hall Hlen. pose proof (total_stars_range l) as Hrange.
    assert (Hlt : total_stars l < 2 ^ 53).
    { unfold max_array_length in Hlen.
      apply Z.le_lt_trans with (5 * 4294967295); [lia | reflexivity]. }
    split; [|lia].
    unfold sum_loop. change Js.zero with (whole 0).
    rewrite (loop_whole l 0) by (auto; lia). now rewrite Z.add_0_l. }
  intros Hall Hlen. destruct (Hsum reviews Hall Hlen) as [Hloop Hrange].
  split; [|split].
  - rewrite Hloop. now rewrite of_Z_whole.
  - unfold getAverageRating. rewrite Hloop.
    destruct (average_of_cases (Js.Number (whole (total_stars reviews)))
                (List.length reviews)) as [[Hgt ->]|[Hgt (s & _ & ->)]];
      rewrite gt_zero in Hgt; cbn [Js.ToNumber] in Hgt.
    + split; [intros _|reflexivity].
      destruct (total_stars reviews); [reflexivity | discriminate Hgt | lia].
    + split; [discriminate|]. intros Hzero. rewrite Hzero in Hgt. discriminate Hgt.
  - intros reviews' Hperm.
    assert (Hall' : Forall (fun r => stars (rating r) <> None) reviews').
    { apply Forall_forall. intros r Hin.
      apply (proj1 (Forall_forall _ _) Hall).
      apply Permutation_in with (1 := Permutation_sym Hperm). exact Hin. }
    assert (Hlen' : List.length reviews' = List.length reviews)
      by (symmetry; now apply Permutation_length).
    destruct (Hsum reviews' Hall' ltac:(rewrite Hlen'; exact Hlen)) as [Hloop' _].
    unfold getAverageRating.
    now rewrite Hloop, Hloop', Hlen', (total_stars_permutation _ _ Hperm).
Qed.

Lemma whole_ratings_sum_witness :
  let review v := {| product_external_id := Js.Str "p1"; rating := v |} in
  let reviews := [review (Js.Number (Js.of_Z 5)); review Js.Undefined;
                  review (Js.Number (Js.of_Z 3))] in
  sum_loop reviews = Js.Number (Js.of_Z 8)
  /\ getAverageRating (rev reviews) = getAverageRating reviews.
Proof.
  intros review reviews.
  assert (Hall : Forall (fun r => stars (rating r) <> None) reviews)
    by (repeat constructor; discriminate).
  assert (Hlen : Z.of_nat (List.length reviews) <= max_array_length)
    by (intros Hgt; discriminate Hgt).
  destruct (whole_ratings_sum reviews Hall Hlen) as (Hsum & _ & Hperm).
  split; [exact Hsum | apply Hperm, Permutation_rev].
Defined.

End WholeRatings.
